(** * igloo-mcp: the pagination engine, the page fetcher and the formatter helpers

    A shallow embedding of [igloo_mcp/igloo.py] ([IglooClient._request],
    [IglooClient.search], [IglooClient._validate_community_url],
    [IglooClient.fetch_page], [IglooClient.fetch_pages]) and of
    [igloo_mcp/formatter.py] ([_truncate_text] and the percentage of
    [format_truncation_metadata]).

    Python integers are [Z], Python strings are [string], the coroutines of
    the client are computations of a small state-and-exception monad whose
    state is the log of the HTTP requests handed to the transport.  The
    quotient [int / int] is a binary64 float, after the IEEE 754
    specification of the Standard Library.  The truncation engine
    ([igloo_mcp/converter.py]) is not among the sources and is modelled
    after its specification. *)

From Stdlib Require Import ZArith List String Ascii Bool Lia.
From Stdlib Require Import DecimalString DecimalZ.
From Stdlib Require Floats.SpecFloat.
Import ListNotations.

Local Open Scope string_scope.
Local Open Scope Z_scope.

(** ** Python built-ins used by the source *)

Module Py.

(** [len(s)] and [len(l)], as Python integers. *)
Definition len_str (s : string) : Z := Z.of_nat (String.length s).
Definition len {A} (l : list A) : Z := Z.of_nat (List.length l).

(** The first [n] characters of a string. *)
Fixpoint take (n : nat) (s : string) : string :=
  match n, s with
  | O, _ => EmptyString
  | S _, EmptyString => EmptyString
  | S n', String c s' => String c (take n' s')
  end.

(** [s[:n]]: a negative bound counts from the end of the string. *)
Definition str_slice_to (s : string) (n : Z) : string :=
  if 0 <=? n then take (Z.to_nat n) s
  else take (Z.to_nat (len_str s + n)) s.

(** [l[:n]] on lists, with the same convention. *)
Definition slice_to {A} (l : list A) (n : Z) : list A :=
  if 0 <=? n then firstn (Z.to_nat n) l
  else firstn (Z.to_nat (len l + n)) l.

(** [s.rsplit(sep, 1)] for a one-character separator: the string is cut at
    the last occurrence of [sep]; without an occurrence the result is the
    one-element list [[s]]. *)
Fixpoint rsplit_once (sep : ascii) (s : string) : list string :=
  match s with
  | EmptyString => [EmptyString]
  | String c s' =>
      match rsplit_once sep s' with
      | [h; t] => [String c h; t]
      | _ => if Ascii.eqb c sep then [EmptyString; s'] else [s]
      end
  end.

(** [l[0]] on the non-empty lists [rsplit] returns. *)
Definition item0 (l : list string) : string := hd EmptyString l.

(** [s.rstrip(c)] for a one-character set. *)
Fixpoint rstrip (c : ascii) (s : string) : string :=
  match s with
  | EmptyString => EmptyString
  | String a s' =>
      match rstrip c s' with
      | EmptyString => if Ascii.eqb a c then EmptyString else String a EmptyString
      | r => String a r
      end
  end.

(** [s[n:]] for a non-negative [n]. *)
Fixpoint drop (n : nat) (s : string) : string :=
  match n, s with
  | O, _ => s
  | S _, EmptyString => EmptyString
  | S n', String _ s' => drop n' s'
  end.

(** [c in s] for a character. *)
Fixpoint contains (c : ascii) (s : string) : bool :=
  match s with
  | EmptyString => false
  | String a s' => Ascii.eqb a c || contains c s'
  end.

(** [s.startswith(p)]. *)
Definition startswith (s p : string) : bool := String.prefix p s.

(** [str(n)] for an integer. *)
Definition str_of_int (n : Z) : string := NilZero.string_of_int (Z.to_int n).

(** [str(b).lower()] for a boolean. *)
Definition str_lower_of_bool (b : bool) : string :=
  if b then "true" else "false".

(** [sep.join(l)]. *)
Definition join (sep : string) (l : list string) : string := String.concat sep l.

(** [range(start, stop, step)]; [None] is the [ValueError] of a zero step. *)
Definition range (start stop step : Z) : option (list Z) :=
  if step =? 0 then None
  else
    let count :=
      if 0 <? step then (stop - start + step - 1) / step
      else (start - stop - step - 1) / (- step) in
    Some (map (fun k => start + Z.of_nat k * step) (seq 0 (Z.to_nat count))).

(** [d[k] = v] on a dictionary kept in insertion order. *)
Fixpoint dict_set (k v : string) (d : list (string * string)) : list (string * string) :=
  match d with
  | [] => [(k, v)]
  | (k', v') :: d' =>
      if String.eqb k' k then (k, v) :: d' else (k', v') :: dict_set k v d'
  end.

(** [d.get(k)]. *)
Fixpoint dict_get (k : string) (d : list (string * string)) : option string :=
  match d with
  | [] => None
  | (k', v) :: d' => if String.eqb k' k then Some v else dict_get k d'
  end.

End Py.

(** ** Enumerations and dates of [igloo.py] *)

Inductive ApplicationType :=
  BLOG | WIKI | DOCUMENT | FORUM | GALLERY | CALENDAR | PAGES | PEOPLE | SPACE | MICROBLOG.

Definition ApplicationType_value (a : ApplicationType) : Z :=
  match a with
  | BLOG => 1 | WIKI => 2 | DOCUMENT => 3 | FORUM => 4 | GALLERY => 5
  | CALENDAR => 6 | PAGES => 7 | PEOPLE => 8 | SPACE => 9 | MICROBLOG => 10
  end.

Inductive UpdatedDateType :=
  PAST_HOUR | PAST_24_HOURS | PAST_WEEK | PAST_MONTH | PAST_YEAR | CUSTOM_RANGE.

Definition UpdatedDateType_value (t : UpdatedDateType) : string :=
  match t with
  | PAST_HOUR => "pastHour"
  | PAST_24_HOURS => "pastTwentyFourHours"
  | PAST_WEEK => "pastWeek"
  | PAST_MONTH => "pastMonth"
  | PAST_YEAR => "pastYear"
  | CUSTOM_RANGE => "dateRange"
  end.

Definition UpdatedDateType_eqb (a b : UpdatedDateType) : bool :=
  match a, b with
  | PAST_HOUR, PAST_HOUR | PAST_24_HOURS, PAST_24_HOURS | PAST_WEEK, PAST_WEEK
  | PAST_MONTH, PAST_MONTH | PAST_YEAR, PAST_YEAR | CUSTOM_RANGE, CUSTOM_RANGE => true
  | _, _ => false
  end.

(** [datetime.date]; every date object is truthy. *)
Record date := { year : Z; month : Z; day : Z }.

Definition two_digits (n : Z) : string :=
  if n <? 10 then "0" ++ Py.str_of_int n else Py.str_of_int n.

(** [d.strftime(API_DATE_FORMAT)] with [API_DATE_FORMAT = "%m-%d-%Y"]. *)
Definition strftime_api (d : date) : string :=
  two_digits (month d) ++ "-" ++ two_digits (day d) ++ "-" ++ Py.str_of_int (year d).

(** ** HTTP transport, exceptions and the request log *)

(** The exceptions the modelled code can raise. *)
Inductive exn :=
  | ValueError (msg : string)
  | TypeError
  | JSONDecodeError
  | HTTPStatusError (status : Z)
  | TransportError (msg : string).

(** A field of a JSON object: missing, [null], or holding a value. *)
Inductive jfield (A : Type) :=
  | Absent
  | JNull
  | JValue (a : A).
Arguments Absent {A}.
Arguments JNull {A}.
Arguments JValue {A} a.

(** What the client hands to [httpx.AsyncClient.request]. *)
Record http_request := {
  req_method : string;
  req_url : string;
  req_params : list (string * string);
  req_headers : list (string * string)
}.

Section Client.

(** The raw result records of the search endpoint ([dict[str, Any]]). *)
Context {Rec : Type}.

(** The body of a search response, [{ results: [...], numFound: <int> }]. *)
Record search_json := {
  json_results : jfield (list Rec);
  json_numFound : jfield Z
}.

(** An [httpx.Response]: [resp_json] is [None] when [response.json()] raises,
    and the JSON object of the body otherwise; a body that is JSON without
    being an object is not modelled. *)
Record response := {
  status_code : Z;
  resp_text : string;
  resp_json : option search_json
}.

(** The outcome of one request at the transport: a response, or a timeout or
    connection failure. *)
Inductive transport_result :=
  | Responded (r : response)
  | Failed (msg : string).

(** The transport collaborator. *)
Variable transport : http_request -> transport_result.

(** Coroutines: the state is the log of the requests issued so far, the
    result a value or a raised exception. *)
Definition M (A : Type) : Type :=
  list http_request -> (A + exn) * list http_request.

Definition ret {A} (a : A) : M A := fun log => (inl a, log).

Definition raise {A} (e : exn) : M A := fun log => (inr e, log).

Definition bind {A B} (m : M A) (k : A -> M B) : M B :=
  fun log =>
    match m log with
    | (inl a, log') => k a log'
    | (inr e, log') => (inr e, log')
    end.

Notation "x <- m ;; k" := (bind m (fun x => k))
  (at level 100, m at next level, right associativity).

(** [await self._client.request(...)]: the request goes out, whatever comes
    back. *)
Definition client_request (r : http_request) : M response :=
  fun log =>
    match transport r with
    | Responded resp => (inl resp, (log ++ [r])%list)
    | Failed msg => (inr (TransportError msg), (log ++ [r])%list)
    end.

(** [response.is_success]: a 2xx status. *)
Definition is_success (r : response) : bool :=
  (200 <=? status_code r) && (status_code r <=? 299).

(** [response.raise_for_status()]. *)
Definition raise_for_status (r : response) : M response :=
  if is_success r then ret r
  else raise (HTTPStatusError (status_code r)).

(** [response.json()]. *)
Definition response_json (r : response) : M search_json :=
  match resp_json r with
  | Some j => ret j
  | None => raise JSONDecodeError
  end.

(** Runs the tasks in the order they were created; every task runs to its
    end, whatever the others do. *)
Fixpoint run_all {A} (tasks : list (M A)) (log : list http_request)
  : list (A + exn) * list http_request :=
  match tasks with
  | [] => ([], log)
  | t :: ts =>
      let (o, log1) := t log in
      let (os, log2) := run_all ts log1 in
      (o :: os, log2)
  end.

(** The values of the outcomes, or the exception of the first failed one. *)
Fixpoint collect {A} (os : list (A + exn)) : list A + exn :=
  match os with
  | [] => inl []
  | inr e :: _ => inr e
  | inl a :: os' =>
      match collect os' with
      | inl l => inl (a :: l)
      | inr e => inr e
      end
  end.

(** [await asyncio.gather] over the tasks: the values in task order, or an exception
    as soon as a task raises one (here: the first one in task order). *)
Definition gather {A} (tasks : list (M A)) : M (list A) :=
  fun log => let (os, log') := run_all tasks log in (collect os, log').

(** [await asyncio.gather] with [return_exceptions=True]. *)
Definition gather_return_exceptions {A} (tasks : list (M A)) : M (list (A + exn)) :=
  fun log => let (os, log') := run_all tasks log in (inl os, log').

(** ** [IglooClient] *)

Record IglooClient := {
  community : string;
  community_key : string;
  page_size : Z
}.

(** [IglooClient.__init__], for the attributes the modelled methods read. *)
Definition new_client (community community_key : string) (page_size : Z) : IglooClient :=
  {| community := Py.rstrip "/" community;
     community_key := community_key;
     page_size := page_size |}.

Definition valid_method (method : string) : bool :=
  existsb (String.eqb method) ["GET"; "POST"; "PUT"; "DELETE"].

(** The request [_request] hands to the HTTP client: [method], the URL
    [self.community + endpoint] and the keyword arguments. *)
Definition api_request (self : IglooClient) (method endpoint : string)
    (params : list (string * string)) : http_request :=
  {| req_method := method;
     req_url := community self ++ endpoint;
     req_params := params;
     req_headers := [] |}.

(** [IglooClient._request], called with [params=...]. *)
Definition _request (self : IglooClient) (method endpoint : string)
    (params : list (string * string)) : M response :=
  if negb (valid_method method) then
    raise (ValueError ("Invalid HTTP method: " ++ method))
  else
    response <- client_request (api_request self method endpoint params) ;;
    raise_for_status response.

(** The arguments of [IglooClient.search]. *)
Record SearchArgs := {
  query : option string;
  applications : option (list ApplicationType);
  parent_href : option string;
  search_all : bool;
  include_microblog : bool;
  include_archived : bool;
  updated_date_type : option UpdatedDateType;
  updated_date_range_from : option date;
  updated_date_range_to : option date;
  pagination_page_size : option Z;
  limit : option Z
}.

(** [pagination_page_size or self.page_size]. *)
Definition search_page_size (self : IglooClient) (a : SearchArgs) : Z :=
  match pagination_page_size a with
  | Some p => if p =? 0 then page_size self else p
  | None => page_size self
  end.

Definition custom_range_message : string :=
  "'updated_date_range_from' and 'updated_date_range_to' must be provided when 'updated_date_type' is 'CUSTOM_RANGE'.".

(** Lines 168-194 of [search]: the query parameters, or the [ValueError] of a
    custom range without both bounds. *)
Definition search_params (self : IglooClient) (a : SearchArgs)
  : list (string * string) + exn :=
  let params := [("limit", Py.str_of_int (search_page_size self a))] in
  let params :=
    match query a with
    | Some q => if String.eqb q "" then params else Py.dict_set "query" q params
    | None => params
    end in
  let params :=
    match applications a with
    | Some (app :: apps) =>
        Py.dict_set "applications"
          (Py.join "," (map (fun x => Py.str_of_int (ApplicationType_value x)) (app :: apps)))
          params
    | _ => params
    end in
  let params :=
    match parent_href a with
    | Some h => if String.eqb h "" then params
                else Py.dict_set "parentHref" (Py.rstrip "/" h) params
    | None => params
    end in
  let params := Py.dict_set "searchAll" (Py.str_lower_of_bool (search_all a)) params in
  let params := Py.dict_set "includeMicroblog" (Py.str_lower_of_bool (include_microblog a)) params in
  let params := Py.dict_set "includeArchived" (Py.str_lower_of_bool (include_archived a)) params in
  match updated_date_type a with
  | None => inl params
  | Some t =>
      let params := Py.dict_set "updatedDateType" (UpdatedDateType_value t) params in
      if UpdatedDateType_eqb t CUSTOM_RANGE then
        match updated_date_range_from a, updated_date_range_to a with
        | Some d_from, Some d_to =>
            inl (Py.dict_set "updatedTo" (strftime_api d_to)
                   (Py.dict_set "updatedFrom" (strftime_api d_from) params))
        | _, _ => inr (ValueError custom_range_message)
        end
      else inl params
  end.

Definition search_endpoint (self : IglooClient) : string :=
  "/.api2/api/v1/communities/" ++ community_key self ++ "/search/contentDetailed".

(** [first_response_json.get("results") or []]. *)
Definition first_results (j : search_json) : list Rec :=
  match json_results j with
  | JValue l => l
  | _ => []
  end.

(** [first_response_json.get("numFound", len(results))]; [None] is Python's
    [None], the value of a [null] field. *)
Definition total_results_found (j : search_json) : option Z :=
  match json_numFound j with
  | JValue n => Some n
  | JNull => None
  | Absent => Some (Py.len (first_results j))
  end.

(** [min(limit, total_results_found) if limit is not None else
    total_results_found], for an integer total. *)
Definition results_to_fetch (lim : option Z) (total : Z) : Z :=
  match lim with
  | Some l => Z.min l total
  | None => total
  end.

(** The offsets of the fan-out,
    [range(len(results), results_to_fetch, page_size)]; a total that is
    [None] is a [TypeError], in [min] or in [range]. *)
Definition fanout_offsets (lim : option Z) (total : option Z)
    (n_first page_size : Z) : list Z + exn :=
  match total with
  | None => inr TypeError
  | Some t =>
      match Py.range n_first (results_to_fetch lim t) page_size with
      | Some offsets => inl offsets
      | None => inr (ValueError "range() arg 3 must not be zero")
      end
  end.

(** The request of one fan-out task: [page_params["offset"] = str(offset)] on
    a copy of [params]. *)
Definition page_params (params : list (string * string)) (offset : Z)
  : list (string * string) :=
  Py.dict_set "offset" (Py.str_of_int offset) params.

Definition page_task (self : IglooClient) (params : list (string * string))
    (offset : Z) : M response :=
  _request self "GET" (search_endpoint self) (page_params params offset).

(** The loop over [remaining_responses]:
    [results.extend(response.json().get("results", []))]. *)
Fixpoint extend_results (results : list Rec) (responses : list response)
  : M (list Rec) :=
  match responses with
  | [] => ret results
  | r :: rs =>
      j <- response_json r ;;
      match json_results j with
      | Absent => extend_results results rs
      | JNull => raise TypeError
      | JValue l => extend_results (results ++ l)%list rs
      end
  end.

(** [limit is not None and test(limit)]. *)
Definition limit_is (lim : option Z) (test : Z -> bool) : bool :=
  match lim with
  | Some l => test l
  | None => false
  end.

(** [results[:limit]] when a limit is given, [results] otherwise. *)
Definition up_to_limit (lim : option Z) (results : list Rec) : list Rec :=
  match lim with
  | Some l => Py.slice_to results l
  | None => results
  end.

(** Lines 206-242 of [search]: what follows the parsing of the first
    response. *)
Definition search_pages (self : IglooClient) (a : SearchArgs)
    (params : list (string * string)) (first_response_json : search_json)
  : M (list Rec) :=
  let page_size := search_page_size self a in
  let results := first_results first_response_json in
  let total := total_results_found first_response_json in
  if limit_is (limit a) (fun l => l =? 0) then ret []
  else if limit_is (limit a) (fun l => l <=? Py.len results) then
    ret (up_to_limit (limit a) results)
  else
    match fanout_offsets (limit a) total (Py.len results) page_size with
    | inr e => raise e
    | inl offsets =>
        let tasks := map (page_task self params) offsets in
        results <-
          match tasks with
          | [] => ret results
          | _ =>
              remaining_responses <- gather tasks ;;
              extend_results results remaining_responses
          end ;;
        ret (up_to_limit (limit a) results)
    end.

(** [IglooClient.search]: the parameters are validated and built, the first
    page is requested and parsed, then the remaining pages are fetched. *)
Definition search (self : IglooClient) (a : SearchArgs) : M (list Rec) :=
  match search_params self a with
  | inr e => raise e
  | inl params =>
      first_response <- _request self "GET" (search_endpoint self) params ;;
      first_response_json <- response_json first_response ;;
      search_pages self a params first_response_json
  end.

(** [IglooClient._validate_community_url]: [None] when the URL is accepted. *)
Definition _validate_community_url (self : IglooClient) (url : string) : option exn :=
  let is_valid :=
    String.eqb url (community self)
    || Py.startswith url (community self ++ "/")
    || Py.startswith url (community self ++ "?") in
  if negb is_valid then
    Some (ValueError ("URL must belong to community '" ++ community self ++ "'. Got: " ++ url))
  else None.

(** The request of [fetch_page]: a [GET] of the URL itself, asking for HTML. *)
Definition page_request (url : string) : http_request :=
  {| req_method := "GET";
     req_url := url;
     req_params := [];
     req_headers := [("Accept", "text/html")] |}.

(** [IglooClient.fetch_page]. *)
Definition fetch_page (self : IglooClient) (url : string) : M string :=
  match _validate_community_url self url with
  | Some e => raise e
  | None =>
      response <- client_request (page_request url) ;;
      _ <- raise_for_status response ;;
      ret (resp_text response)
  end.

(** [IglooClient.fetch_pages]. *)
Definition fetch_pages (self : IglooClient) (urls : list string)
  : M (list (string + exn)) :=
  let tasks := map (fetch_page self) urls in
  gather_return_exceptions tasks.

(** What awaiting one request comes to: the response, or the exception of
    the transport or of [raise_for_status]. *)
Definition request_outcome (r : http_request) : response + exn :=
  match transport r with
  | Responded resp =>
      if is_success resp then inl resp else inr (HTTPStatusError (status_code resp))
  | Failed msg => inr (TransportError msg)
  end.

(** A request fails when the transport gives up on it or answers with a
    status that is not 2xx. *)
Definition request_failed (r : http_request) : bool :=
  match transport r with
  | Responded resp => negb (is_success resp)
  | Failed _ => true
  end.

(** The transport answers [r] with a 2xx response whose body holds the
    records [page] and the total [total]. *)
Definition returns_page (r : http_request) (page : list Rec) (total : Z) : Prop :=
  exists resp,
    transport r = Responded resp /\
    is_success resp = true /\
    resp_json resp = Some {| json_results := JValue page; json_numFound := JValue total |}.

(** The first request of a search and the request of the page at [offset]. *)
Definition first_request (self : IglooClient) (params : list (string * string))
  : http_request :=
  api_request self "GET" (search_endpoint self) params.

Definition offset_request (self : IglooClient) (params : list (string * string))
    (offset : Z) : http_request :=
  api_request self "GET" (search_endpoint self) (page_params params offset).

(** The records a server holding [db] returns for one page: [page_size]
    records from [offset] on. *)
Definition server_page (db : list Rec) (page_size offset : Z) : list Rec :=
  firstn (Z.to_nat page_size) (skipn (Z.to_nat offset) db).

(** A server that holds the matches [db]: it reports [len(db)] matches and
    answers every page request with the records at its offset. *)
Definition serves (self : IglooClient) (params : list (string * string))
    (db : list Rec) (page_size : Z) : Prop :=
  returns_page (first_request self params) (server_page db page_size 0) (Py.len db) /\
  forall offset, 0 <= offset ->
    returns_page (offset_request self params offset)
      (server_page db page_size offset) (Py.len db).

(** [ceil(n / p)] on integers. *)
Definition ceil_div (n p : Z) : Z := (n + p - 1) / p.

End Client.

Arguments search_json : clear implicits.
Arguments response : clear implicits.
Arguments transport_result : clear implicits.

(** ** [formatter.py] *)

(** [_truncate_text(text, max_length)]. *)
Definition _truncate_text (text : string) (max_length : Z) : string :=
  if Py.len_str text <=? max_length then text
  else
    let truncated := Py.item0 (Py.rsplit_once " " (Py.str_slice_to text max_length)) in
    truncated ++ "...".

(** Python's [int / int] and [int(float)] on binary64, after the IEEE 754
    specification of the Standard Library: the quotient of two integers is
    the exact quotient rounded once, to nearest, ties to even. *)
Module PyFloat.

Import SpecFloat.

Definition prec : Z := 53.
Definition emax : Z := 1024.

Inductive arith_error := ZeroDivisionError | OverflowError | NotANumber.

(** An integer as a binary significand with exponent zero. *)
Definition of_int (a : Z) : spec_float :=
  match a with
  | Z0 => S754_zero false
  | Zpos p => S754_finite false p 0
  | Zneg p => S754_finite true p 0
  end.

(** [a / b] for two integers. *)
Definition int_truediv (a b : Z) : spec_float + arith_error :=
  if b =? 0 then inr ZeroDivisionError
  else
    match SFdiv prec emax (of_int a) (of_int b) with
    | S754_infinity _ => inr OverflowError
    | S754_nan => inr NotANumber
    | f => inl f
    end.

(** [int(f)]: truncation towards zero. *)
Definition to_int (f : spec_float) : Z + arith_error :=
  match f with
  | S754_zero _ => inl 0
  | S754_finite s m e =>
      let mag := if 0 <=? e then Z.shiftl (Zpos m) e else Z.shiftr (Zpos m) (- e) in
      inl (if s then - mag else mag)
  | S754_infinity _ => inr OverflowError
  | S754_nan => inr NotANumber
  end.

(** The position of the exact value between two significands, once the
    significand [q] has been shifted right by one digit. *)
Definition after_shift (q : Z) (l : location) : location :=
  loc_of_shr_record (shr_1 (shr_record_of_loc q l)).

End PyFloat.

(** Modelled from the spec: the declaration of [TruncationMetadata]
    ([igloo_mcp/converter.py]) is not among the sources; the fields are the
    six of the spec's TruncationWindow, as the tests construct them. *)
Record TruncationMetadata := {
  status : string;
  chars_returned : Z;
  chars_total : Z;
  current_path : option string;
  remaining_sections : list string;
  next_start_index : option Z
}.

(** The [pct] of [format_truncation_metadata]:
    [int(100 * chars_returned / chars_total) if chars_total > 0 else 0]. *)
Definition pct (metadata : TruncationMetadata) : Z + PyFloat.arith_error :=
  if 0 <? chars_total metadata then
    match PyFloat.int_truediv (100 * chars_returned metadata) (chars_total metadata) with
    | inl f => PyFloat.to_int f
    | inr e => inr e
    end
  else inl 0.

(** ** The truncation engine *)

(** Modelled from the spec: the Truncation/Continuation Engine is
    [igloo_mcp/converter.py], which is not among the sources.  A document is
    its converted text with an optional table of contents, a sequence of
    section labels with their start offsets. *)
Record FetchableDocument := {
  doc_text : string;
  doc_toc : option (list (string * nat))
}.

(** Modelled from the spec: the label of the last section whose start offset
    is at most [stop] (the engine is absent from the sources). *)
Fixpoint toc_current (toc : list (string * nat)) (stop : nat) : option string :=
  match toc with
  | [] => None
  | (label, start) :: toc' =>
      match toc_current toc' stop with
      | Some l => Some l
      | None => if (start <=? stop)%nat then Some label else None
      end
  end.

(** Modelled from the spec: the labels of the sections whose start offset is
    beyond [stop], in document order (the engine is absent from the
    sources). *)
Definition toc_remaining (toc : list (string * nat)) (stop : nat) : list string :=
  map fst (filter (fun s => (stop <? snd s)%nat) toc).

(** Modelled from the spec: one fetch call of the engine absent from the
    sources, a pure function of [(document, start_index, max_chars)].  The
    window is the substring that starts at [start_index] and extends up to
    [max_chars] characters; [status] is complete iff
    [start_index + chars_returned >= chars_total]; a partial window carries
    [next_start_index = start_index + chars_returned]. *)
Definition truncate_document (doc : FetchableDocument) (start_index max_chars : nat)
  : string * TruncationMetadata :=
  let window := Py.take max_chars (Py.drop start_index (doc_text doc)) in
  let returned := String.length window in
  let total := String.length (doc_text doc) in
  let stop := (start_index + returned)%nat in
  let complete := (total <=? stop)%nat in
  (window,
   {| status := if complete then "complete" else "partial";
      chars_returned := Z.of_nat returned;
      chars_total := Z.of_nat total;
      current_path :=
        match doc_toc doc with
        | Some toc => toc_current toc stop
        | None => None
        end;
      remaining_sections :=
        match doc_toc doc with
        | Some toc => toc_remaining toc stop
        | None => []
        end;
      next_start_index := if complete then None else Some (Z.of_nat stop) |}).

(** Modelled from the spec: the caller's side of the continuation protocol
    (the tool layer is absent from the sources).  Starting at [start_index],
    every partial window's [next_start_index] is fed back as the next
    [start_index] until a window is complete; the result lists the windows
    with the offsets they were asked at.  [fuel] bounds the number of
    calls. *)
Fixpoint read_document (fuel : nat) (doc : FetchableDocument) (max_chars start_index : nat)
  : option (list (nat * string)) :=
  match fuel with
  | O => None
  | S fuel' =>
      let (window, metadata) := truncate_document doc start_index max_chars in
      if String.eqb (status metadata) "complete" then Some [(start_index, window)]
      else
        match next_start_index metadata with
        | Some next =>
            option_map (cons (start_index, window))
              (read_document fuel' doc max_chars (Z.to_nat next))
        | None => None
        end
  end.

(** The windows of a run, one after the other. *)
Definition join_windows (windows : list (nat * string)) : string :=
  fold_right String.append EmptyString (map snd windows).

(** The windows of a run tile the text from offset [at_]: each one starts
    where the one before it ended. *)
Fixpoint contiguous (at_ : nat) (windows : list (nat * string)) : Prop :=
  match windows with
  | [] => True
  | (start, w) :: rest => start = at_ /\ contiguous (at_ + String.length w) rest
  end.

(** ** Concrete clients, servers and calls *)

Module Demo.

Definition client : IglooClient :=
  new_client "https://igloo.example.com/" "10" 50.

Definition call (lim : option Z) : SearchArgs :=
  {| query := Some "handbook";
     applications := Some [WIKI; DOCUMENT];
     parent_href := None;
     search_all := true;
     include_microblog := true;
     include_archived := false;
     updated_date_type := Some PAST_MONTH;
     updated_date_range_from := None;
     updated_date_range_to := None;
     pagination_page_size := None;
     limit := lim |}.

(** A custom date range without its upper bound. *)
Definition open_range_call : SearchArgs :=
  {| query := Some "handbook";
     applications := None;
     parent_href := None;
     search_all := true;
     include_microblog := true;
     include_archived := false;
     updated_date_type := Some CUSTOM_RANGE;
     updated_date_range_from := Some {| year := 2025; month := 11; day := 6 |};
     updated_date_range_to := None;
     pagination_page_size := None;
     limit := None |}.

(** The query parameters of [call]. *)
Definition params : list (string * string) :=
  [("limit", "50"); ("query", "handbook"); ("applications", "2,3");
   ("searchAll", "true"); ("includeMicroblog", "true");
   ("includeArchived", "false"); ("updatedDateType", "pastMonth")].

Definition parse_int (s : string) : option Z :=
  option_map Z.of_int (NilZero.int_of_string s).

Definition int_param (k : string) (r : http_request) : Z :=
  match Py.dict_get k (req_params r) with
  | Some s => match parse_int s with Some n => n | None => 0 end
  | None => 0
  end.

Definition json_page (records : list nat) (r : http_request) : search_json nat :=
  {| json_results := JValue (server_page records (int_param "limit" r) (int_param "offset" r));
     json_numFound := JValue (Py.len records) |}.

(** A server that holds [records] and pages through them as asked. *)
Definition paged_server (records : list nat) (r : http_request) : transport_result nat :=
  Responded {| status_code := 200; resp_text := ""; resp_json := Some (json_page records r) |}.

(** The same server, except that the page at offset 100 is answered with a
    500. *)
Definition flaky_server (records : list nat) (r : http_request) : transport_result nat :=
  if int_param "offset" r =? 100 then
    Responded {| status_code := 500; resp_text := "Internal Server Error"; resp_json := None |}
  else paged_server records r.

(** A server whose search response carries one record and no [numFound]. *)
Definition bare_server (r : http_request) : transport_result nat :=
  Responded {| status_code := 200; resp_text := "";
               resp_json := Some {| json_results := JValue [7%nat]; json_numFound := Absent |} |}.

(** A site with one page that exists, one that does not, and a host that
    never answers. *)
Definition site (r : http_request) : transport_result nat :=
  if String.eqb (req_url r) "https://igloo.example.com/wiki/a" then
    Responded {| status_code := 200; resp_text := "<html>A</html>"; resp_json := None |}
  else if String.eqb (req_url r) "https://igloo.example.com/wiki/b" then
    Responded {| status_code := 404; resp_text := "Not Found"; resp_json := None |}
  else Failed "timed out".

(** The metadata of a partial window of [returned] characters out of
    [total]. *)
Definition window (returned total : Z) : TruncationMetadata :=
  {| status := "partial";
     chars_returned := returned;
     chars_total := total;
     current_path := None;
     remaining_sections := [];
     next_start_index := Some returned |}.

End Demo.

(** ** Responses with the defaults spelled out *)

(** The body a server would send if it wrote [results: []] where [j] has no
    [results] field. *)
Definition default_results {Rec : Type} (j : search_json Rec) : search_json Rec :=
  {| json_results :=
       match json_results j with
       | Absent => JValue []
       | r => r
       end;
     json_numFound := json_numFound j |}.

(** The body a server would send if it wrote [numFound: 0] where [j] has no
    [numFound] field. *)
Definition default_numFound {Rec : Type} (j : search_json Rec) : search_json Rec :=
  {| json_results := json_results j;
     json_numFound :=
       match json_numFound j with
       | Absent => JValue 0
       | n => n
       end |}.

(** The same response with its body, when it is a JSON object, rewritten by
    [f]. *)
Definition with_body {Rec : Type} (f : search_json Rec -> search_json Rec)
    (resp : response Rec) : response Rec :=
  {| status_code := status_code resp;
     resp_text := resp_text resp;
     resp_json := option_map f (resp_json resp) |}.

(** The same server with the body of every response rewritten by [f]. *)
Definition with_bodies {Rec : Type} (f : search_json Rec -> search_json Rec)
    (transport : http_request -> transport_result Rec)
  : http_request -> transport_result Rec :=
  fun r =>
    match transport r with
    | Responded resp => Responded (with_body f resp)
    | Failed msg => Failed msg
    end.

(** A call that asks for pages of size -1. *)
Definition backward_call : SearchArgs :=
  {| query := Some "handbook";
     applications := None;
     parent_href := None;
     search_all := true;
     include_microblog := true;
     include_archived := false;
     updated_date_type := None;
     updated_date_range_from := None;
     updated_date_range_to := None;
     pagination_page_size := Some (-1);
     limit := None |}.

(** ** Helpers of the further properties *)

(** [c * n]: a character repeated [n] times. *)
Fixpoint repeat_char (c : ascii) (n : nat) : string :=
  match n with
  | O => EmptyString
  | S n' => String c (repeat_char c n')
  end.

(** Whether [_validate_community_url] returns without raising. *)
Definition url_accepted (self : IglooClient) (url : string) : bool :=
  match _validate_community_url self url with
  | None => true
  | Some _ => false
  end.

(** The offsets [search_pages] creates tasks for after a first response
    [j]: none when the limit is 0 or met by the first page (lines 209-213)
    or when the range of line 221 raises, the range of line 221 otherwise. *)
Definition issued_offsets {Rec : Type} (self : IglooClient) (a : SearchArgs)
    (j : search_json Rec) : list Z :=
  if limit_is (limit a) (fun l => l =? 0) then []
  else if limit_is (limit a) (fun l => l <=? Py.len (first_results j)) then []
  else
    match fanout_offsets (limit a) (total_results_found j)
            (Py.len (first_results j)) (search_page_size self a) with
    | inl offsets => offsets
    | inr _ => []
    end.

(** [d[k] = v] when a value is given, [d] itself otherwise. *)
Definition set_if_given (k : string) (v : option string)
    (d : list (string * string)) : list (string * string) :=
  match v with
  | Some x => Py.dict_set k x d
  | None => d
  end.

(** The optional parameters of a search: the query and the parent path when
    they are not empty, the applications when the list is not empty. *)
Definition query_param (a : SearchArgs) : option string :=
  match query a with
  | Some q => if String.eqb q "" then None else Some q
  | None => None
  end.

Definition applications_param (a : SearchArgs) : option string :=
  match applications a with
  | Some (app :: apps) =>
      Some (Py.join "," (map (fun x => Py.str_of_int (ApplicationType_value x)) (app :: apps)))
  | _ => None
  end.

Definition parent_param (a : SearchArgs) : option string :=
  match parent_href a with
  | Some h => if String.eqb h "" then None else Some (Py.rstrip "/" h)
  | None => None
  end.

(** A server whose page at offset 50 carries [results: null]. *)
Definition null_page_server (records : list nat) (r : http_request)
  : transport_result nat :=
  if Demo.int_param "offset" r =? 50 then
    Responded {| status_code := 200; resp_text := "";
                 resp_json := Some {| json_results := JNull;
                                      json_numFound := JValue (Py.len records) |} |}
  else Demo.paged_server records r.

(** A server whose responses carry [numFound: null]. *)
Definition null_total_server (records : list nat) (r : http_request)
  : transport_result nat :=
  Responded {| status_code := 200; resp_text := "";
               resp_json := Some {| json_results := JValue records;
                                    json_numFound := JNull |} |}.

(** * Properties *)

(** ** Running requests *)

Section Running.

Context {Rec : Type}.
Variable transport : http_request -> transport_result Rec.

Lemma request_failed_outcome r :
  request_failed transport r = true <-> exists e, request_outcome transport r = inr e.
Proof.
  unfold request_failed, request_outcome.
  destruct (transport r) as [resp | msg].
  - destruct (is_success resp); simpl; split; intros H; try discriminate; eauto.
    now destruct H.
  - split; eauto.
Qed.

(** One call of [_request] with a valid method sends exactly one request. *)
Lemma _request_run self method endpoint params log :
  valid_method method = true ->
  _request transport self method endpoint params log =
  (request_outcome transport (api_request self method endpoint params),
   (log ++ [api_request self method endpoint params])%list).
Proof.
  intros Hm. unfold _request. rewrite Hm. simpl.
  unfold bind, client_request, request_outcome, raise_for_status.
  destruct (transport _) as [resp | msg]; [ | reflexivity ].
  now destruct (is_success resp).
Qed.

Lemma page_task_run self params offset log :
  page_task transport self params offset log =
  (request_outcome transport (offset_request self params offset),
   (log ++ [offset_request self params offset])%list).
Proof. unfold page_task. now rewrite _request_run. Qed.

(** The fan-out: every task sends its request, in offset order. *)
Lemma run_all_page_tasks self params offsets log :
  run_all (map (page_task transport self params) offsets) log =
  (map (fun o => request_outcome transport (offset_request self params o)) offsets,
   (log ++ map (offset_request self params) offsets)%list).
Proof.
  revert log. induction offsets as [ | o os IH]; intros log; simpl.
  - now rewrite app_nil_r.
  - rewrite page_task_run, IH. now rewrite <- app_assoc.
Qed.

Lemma collect_inr {A} (os : list (A + exn)) e :
  In (inr e) os -> exists e', collect os = inr e'.
Proof.
  induction os as [ | o os IH]; simpl; [ easy | ].
  intros [ -> | Hin ]; [ eauto | ].
  destruct o as [a | e0]; [ | eauto ].
  destruct (IH Hin) as [e' ->]. eauto.
Qed.

Lemma collect_inl {A} (l : list A) : collect (map inl l) = inl l.
Proof. induction l as [ | a l IH]; simpl; [ easy | now rewrite IH ]. Qed.

(** A page fetch on its own: its outcome and the requests it sends do not
    depend on what was sent before. *)
Lemma fetch_page_run self url log :
  fetch_page transport self url log =
  (fst (fetch_page transport self url []),
   (log ++ snd (fetch_page transport self url []))%list).
Proof.
  unfold fetch_page.
  destruct (_validate_community_url self url) as [e | ]; simpl.
  - now rewrite app_nil_r.
  - unfold bind, client_request, raise_for_status.
    destruct (transport (page_request url)) as [resp | msg]; simpl; [ | reflexivity ].
    now destruct (is_success resp).
Qed.

(** A page fetch started on an empty log: the error of the validation and no
    request, or one request and what its answer comes to. *)
Lemma fetch_page_alone self url :
  fetch_page transport self url [] =
  (match _validate_community_url self url with
   | Some e => inr e
   | None =>
       match transport (page_request url) with
       | Responded resp =>
           if is_success resp then inl (resp_text resp)
           else inr (HTTPStatusError (status_code resp))
       | Failed msg => inr (TransportError msg)
       end
   end,
   if url_accepted self url then [page_request url] else []).
Proof.
  unfold fetch_page, url_accepted.
  destruct (_validate_community_url self url) as [e | ]; [ reflexivity | ].
  unfold bind, client_request, raise_for_status.
  destruct (transport (page_request url)) as [resp | msg]; [ | reflexivity ].
  now destruct (is_success resp).
Qed.

Lemma fetch_page_requests self urls :
  List.concat (map (fun url => snd (fetch_page transport self url [])) urls) =
  map page_request (filter (url_accepted self) urls).
Proof.
  induction urls as [ | u us IH]; simpl; [ reflexivity | ].
  rewrite IH, fetch_page_alone. simpl.
  now destruct (url_accepted self u).
Qed.

Lemma run_all_fetch_page self urls log :
  run_all (map (fetch_page transport self) urls) log =
  (map (fun url => fst (fetch_page transport self url [])) urls,
   (log ++ List.concat (map (fun url => snd (fetch_page transport self url [])) urls))%list).
Proof.
  revert log. induction urls as [ | u us IH]; intros log; simpl.
  - now rewrite app_nil_r.
  - rewrite fetch_page_run. rewrite IH. now rewrite <- app_assoc.
Qed.

End Running.

(** ** Validation comes before the network *)

(** C7: a validation error is raised before any request is issued.  A search
    whose date filter is the custom range with a bound missing raises
    [ValueError] and leaves the request log as it was; so does [_request]
    when the HTTP method is not one of GET, POST, PUT and DELETE. *)
Theorem validation_precedes_network {Rec : Type}
    (transport : http_request -> transport_result Rec) (self : IglooClient)
    (log : list http_request) :
  (forall a : SearchArgs,
      updated_date_type a = Some CUSTOM_RANGE ->
      updated_date_range_from a = None \/ updated_date_range_to a = None ->
      search transport self a log = (inr (ValueError custom_range_message), log))
  /\
  (forall method endpoint params,
      valid_method method = false ->
      _request transport self method endpoint params log =
      (inr (ValueError ("Invalid HTTP method: " ++ method)), log)).
Proof.
  split.
  - intros a Ht Hb. unfold search, search_params. rewrite Ht. simpl.
    destruct Hb as [-> | ->]; [ reflexivity | ].
    now destruct (updated_date_range_from a).
  - intros method endpoint params Hm. unfold _request. now rewrite Hm.
Qed.

Lemma validation_precedes_network_witness :
  search (Demo.paged_server (seq 0 3)) Demo.client Demo.open_range_call [] =
    (inr (ValueError custom_range_message), [])
  /\ _request (Demo.paged_server (seq 0 3)) Demo.client "PATCH" "/x" [] [] =
    (inr (ValueError "Invalid HTTP method: PATCH"), []).
Proof.
  destruct (validation_precedes_network (Demo.paged_server (seq 0 3)) Demo.client [])
    as [Hsearch Hrequest].
  split.
  - apply Hsearch; [ reflexivity | right; reflexivity ].
  - apply Hrequest. reflexivity.
Defined.

(** ** Fetching pages *)

(** C5: a multi-page fetch of N URLs returns N slots in the order of the
    input.  The slot of a URL is the error of the validation when the URL is
    rejected; otherwise it is what the transport answers to the request of
    that very URL: the text of the page on a 2xx status, the status error on
    another status, the transport error when no answer comes.  A slot
    depends on its own URL only, so no failure aborts the batch or changes
    the slot of another URL; the requests sent are those of the accepted
    URLs, one each, in the order of the input. *)
Theorem fetch_pages_positional {Rec : Type}
    (transport : http_request -> transport_result Rec) (self : IglooClient)
    (urls : list string) (log : list http_request) :
  let accepted := fun url =>
    String.eqb url (community self)
    || Py.startswith url (community self ++ "/")
    || Py.startswith url (community self ++ "?") in
  let request := fun url =>
    {| req_method := "GET"; req_url := url; req_params := [];
       req_headers := [("Accept", "text/html")] |} in
  exists results,
    fetch_pages transport self urls log =
      (inl results, (log ++ map request (filter accepted urls))%list) /\
    List.length results = List.length urls /\
    forall i url,
      nth_error urls i = Some url ->
      nth_error results i =
      Some (if accepted url then
              match transport (request url) with
              | Responded resp =>
                  if is_success resp then inl (resp_text resp)
                  else inr (HTTPStatusError (status_code resp))
              | Failed msg => inr (TransportError msg)
              end
            else
              inr (ValueError ("URL must belong to community '" ++ community self
                               ++ "'. Got: " ++ url))).
Proof.
  intros accepted request.
  assert (Hacc : forall url, url_accepted self url = accepted url).
  { intros url. unfold url_accepted, _validate_community_url. fold (accepted url).
    now destruct (accepted url). }
  unfold fetch_pages, gather_return_exceptions.
  rewrite run_all_fetch_page, fetch_page_requests.
  rewrite (filter_ext _ _ Hacc).
  eexists. split; [ reflexivity | ].
  split; [ apply length_map | ].
  intros i url Hi. rewrite nth_error_map, Hi. simpl.
  rewrite fetch_page_alone. simpl. f_equal.
  unfold _validate_community_url. fold (accepted url).
  now destruct (accepted url).
Qed.

Lemma fetch_pages_positional_witness :
  exists msg,
    fetch_pages Demo.site Demo.client
      ["https://igloo.example.com/wiki/a"; "https://evil.example.com/x";
       "https://igloo.example.com/wiki/b"; "https://igloo.example.com/wiki/c"] [] =
    (inl [inl "<html>A</html>"; inr (ValueError msg); inr (HTTPStatusError 404);
          inr (TransportError "timed out")],
     [page_request "https://igloo.example.com/wiki/a";
      page_request "https://igloo.example.com/wiki/b";
      page_request "https://igloo.example.com/wiki/c"]).
Proof.
  destruct (fetch_pages_positional Demo.site Demo.client
              ["https://igloo.example.com/wiki/a"; "https://evil.example.com/x";
               "https://igloo.example.com/wiki/b"; "https://igloo.example.com/wiki/c"] [])
    as [results [Hrun [Hlen Hslot]]].
  pose proof (Hslot 0%nat _ eq_refl) as H0.
  pose proof (Hslot 1%nat _ eq_refl) as H1.
  pose proof (Hslot 2%nat _ eq_refl) as H2.
  pose proof (Hslot 3%nat _ eq_refl) as H3.
  destruct results as [ | r0 [ | r1 [ | r2 [ | r3 [ | r4 rest]]]]]; try discriminate Hlen.
  simpl in H0, H1, H2, H3.
  injection H0 as ->. injection H1 as ->. injection H2 as ->. injection H3 as ->.
  eexists. exact Hrun.
Defined.

(** C10: a URL that is neither the community base URL nor that base URL
    followed by a slash or a question mark makes [fetch_page] raise
    [ValueError] with the request log untouched; in a multi-page fetch its
    slot holds that error, the other slots are what their URLs come to on
    their own, and only the other URLs are requested. *)
Theorem foreign_url_is_rejected {Rec : Type}
    (transport : http_request -> transport_result Rec) (self : IglooClient)
    (url : string) :
  url <> community self ->
  Py.startswith url (community self ++ "/") = false ->
  Py.startswith url (community self ++ "?") = false ->
  exists msg,
    (forall log, fetch_page transport self url log = (inr (ValueError msg), log)) /\
    (forall before after log,
        fetch_pages transport self (before ++ url :: after) log =
        (inl (map (fun u => fst (fetch_page transport self u [])) before
              ++ inr (ValueError msg)
              :: map (fun u => fst (fetch_page transport self u [])) after)%list,
         (log
          ++ List.concat (map (fun u => snd (fetch_page transport self u [])) before)
          ++ List.concat (map (fun u => snd (fetch_page transport self u [])) after))%list)).
Proof.
  intros Hne Hslash Hquery.
  assert (Hv : _validate_community_url self url =
               Some (ValueError ("URL must belong to community '" ++ community self
                                 ++ "'. Got: " ++ url))).
  { unfold _validate_community_url. rewrite Hslash, Hquery.
    apply String.eqb_neq in Hne. now rewrite Hne. }
  assert (Hone : forall log, fetch_page transport self url log =
                 (inr (ValueError ("URL must belong to community '" ++ community self
                                   ++ "'. Got: " ++ url)), log)).
  { intros log. unfold fetch_page. now rewrite Hv. }
  eexists. split; [ exact Hone | ].
  intros before after log. unfold fetch_pages, gather_return_exceptions.
  rewrite run_all_fetch_page. rewrite !map_app, concat_app.
  cbn [map List.concat]. rewrite (Hone []). reflexivity.
Qed.

Lemma foreign_url_is_rejected_witness :
  exists msg,
    fetch_page Demo.site Demo.client "https://evil.example.com/x" [] =
      (inr (ValueError msg), []) /\
    fst (fetch_pages Demo.site Demo.client
           ["https://igloo.example.com/wiki/a"; "https://evil.example.com/x";
            "https://igloo.example.com/wiki/b"] []) =
      inl [inl "<html>A</html>"; inr (ValueError msg); inr (HTTPStatusError 404)].
Proof.
  destruct (foreign_url_is_rejected Demo.site Demo.client "https://evil.example.com/x")
    as [msg [Hone Hmany]].
  - discriminate.
  - reflexivity.
  - reflexivity.
  - exists msg. split; [ apply Hone | ].
    exact (f_equal fst (Hmany ["https://igloo.example.com/wiki/a"]
                              ["https://igloo.example.com/wiki/b"] [])).
Defined.

(** ** The runs of a search *)

Section Searching.

Context {Rec : Type}.
Variable transport : http_request -> transport_result Rec.

(** A range that stops where it starts is empty. *)
Lemma range_nothing start step :
  step <> 0 -> Py.range start start step = Some [].
Proof.
  intros Hs. unfold Py.range.
  destruct (step =? 0) eqn:H0; [ apply Z.eqb_eq in H0; contradiction | ].
  replace (Z.to_nat _) with 0%nat; [ reflexivity | ].
  destruct (0 <? step) eqn:Hpos.
  - apply Z.ltb_lt in Hpos.
    replace (start - start + step - 1) with (step - 1) by lia.
    now rewrite Z.div_small by lia.
  - apply Z.ltb_ge in Hpos.
    replace (start - start - step - 1) with (- step - 1) by lia.
    now rewrite Z.div_small by lia.
Qed.

(** An ascending range that stops at or before its start is empty. *)
Lemma range_exhausted start stop step :
  1 <= step -> stop <= start -> Py.range start stop step = Some [].
Proof.
  intros Hs Hle. unfold Py.range.
  destruct (step =? 0) eqn:H0; [ apply Z.eqb_eq in H0; lia | ].
  destruct (0 <? step) eqn:Hpos; [ | apply Z.ltb_ge in Hpos; lia ].
  replace (Z.to_nat _) with 0%nat; [ reflexivity | ].
  assert ((stop - start + step - 1) / step <= 0); [ | lia ].
  apply Z.lt_succ_r. apply Z.div_lt_upper_bound; lia.
Qed.

(** A search that passes validation sends the first request, parses its
    answer and goes on with the pages. *)
Lemma search_run self a params log :
  search_params self a = inl params ->
  search transport self a log =
  match request_outcome transport (first_request self params) with
  | inr e => (inr e, (log ++ [first_request self params])%list)
  | inl resp =>
      match resp_json resp with
      | None => (inr JSONDecodeError, (log ++ [first_request self params])%list)
      | Some j =>
          search_pages transport self a params j (log ++ [first_request self params])%list
      end
  end.
Proof.
  intros Hp. unfold search. rewrite Hp.
  unfold bind at 1. rewrite _request_run by reflexivity.
  fold (first_request self params).
  destruct (request_outcome transport (first_request self params)) as [resp | e];
    [ | reflexivity ].
  unfold bind, response_json.
  destruct (resp_json resp) as [j | ]; reflexivity.
Qed.

Lemma extend_results_run (resps : list (response Rec)) :
  forall results log,
    extend_results results resps log = (fst (extend_results results resps []), log).
Proof.
  induction resps as [ | r rs IH]; intros results log; simpl; [ reflexivity | ].
  unfold bind, response_json.
  destruct (resp_json r) as [j | ]; simpl; [ | reflexivity ].
  destruct (json_results j); simpl; auto.
Qed.

(** The fan-out of [search_pages] and the loop over its responses. *)
Lemma fanout_run self params results offsets log :
  match map (page_task transport self params) offsets with
  | [] => ret results
  | _ =>
      bind (gather (map (page_task transport self params) offsets))
        (fun remaining_responses => extend_results results remaining_responses)
  end log =
  (match collect (map (fun o => request_outcome transport (offset_request self params o))
                    offsets) with
   | inr e => inr e
   | inl resps => fst (extend_results results resps [])
   end,
   (log ++ map (offset_request self params) offsets)%list).
Proof.
  destruct offsets as [ | o0 os].
  { simpl. now rewrite app_nil_r. }
  set (offsets := o0 :: os).
  change (map (page_task transport self params) offsets)
    with (page_task transport self params o0 :: map (page_task transport self params) os)
    at 1.
  cbv iota.
  unfold bind, gather. rewrite run_all_page_tasks.
  destruct (collect _) as [resps | e]; [ | reflexivity ].
  apply extend_results_run.
Qed.

(** What [search_pages] sends are the requests of the offsets of its
    fan-out, in offset order; one of them failing fails the call. *)
Lemma search_pages_issued self a params j log :
  exists offsets,
    snd (search_pages transport self a params j log) =
      (log ++ map (offset_request self params) offsets)%list /\
    forall o, In o offsets ->
      request_failed transport (offset_request self params o) = true ->
      exists e, fst (search_pages transport self a params j log) = inr e.
Proof.
  unfold search_pages.
  destruct (limit_is (limit a) (fun l => l =? 0)).
  { exists []. simpl. rewrite app_nil_r. split; [ reflexivity | easy ]. }
  destruct (limit_is (limit a) _).
  { exists []. simpl. rewrite app_nil_r. split; [ reflexivity | easy ]. }
  destruct (fanout_offsets _ _ _ _) as [offsets | e].
  2:{ exists []. simpl. rewrite app_nil_r. split; [ reflexivity | easy ]. }
  exists offsets. cbv zeta. unfold bind. rewrite fanout_run.
  destruct (collect _) as [resps | e] eqn:Hc.
  - destruct (fst (extend_results (first_results j) resps [])) as [results | e];
      (split; [ reflexivity | ]); [ | simpl; eauto ].
    intros o Hin Hfail. apply request_failed_outcome in Hfail as [e Hfail].
    assert (Hin' : In (inr e)
              (map (fun o => request_outcome transport (offset_request self params o))
                 offsets)).
    { rewrite <- Hfail. apply in_map_iff. eauto. }
    apply collect_inr in Hin' as [e' He']. congruence.
  - simpl. split; eauto.
Qed.

End Searching.

(** ** A failed page fails the search *)

(** C4: when one of the requests a search has issued fails (the transport
    gives up on it, or the status of its answer is not 2xx), the call ends in
    an exception and returns no list; this holds for every fan-out page
    request, and for the first page as well. *)
Theorem failed_page_fails_search {Rec : Type}
    (transport : http_request -> transport_result Rec) (self : IglooClient)
    (a : SearchArgs) (r : http_request) :
  In r (snd (search transport self a [])) ->
  request_failed transport r = true ->
  exists e, fst (search transport self a []) = inr e.
Proof.
  intros Hin Hfail.
  destruct (search_params self a) as [params | e] eqn:Hp.
  2:{ unfold search. rewrite Hp. simpl. eauto. }
  rewrite (search_run transport self a params [] Hp) in *.
  destruct (request_outcome transport (first_request self params)) as [resp | e] eqn:Hfirst;
    [ | simpl; eauto ].
  destruct (resp_json resp) as [j | ]; [ | simpl; eauto ].
  destruct (search_pages_issued transport self a params j ([] ++ [first_request self params]))
    as [offsets [Hlog Hfatal]].
  rewrite Hlog in Hin. simpl in Hin.
  destruct Hin as [<- | Hin].
  - apply request_failed_outcome in Hfail as [e Hfail]. congruence.
  - apply in_map_iff in Hin as [o [<- Hin]]. eauto.
Qed.

Lemma failed_page_fails_search_witness :
  exists e, fst (search (Demo.flaky_server (seq 0 120)) Demo.client (Demo.call None) []) = inr e.
Proof.
  apply (failed_page_fails_search (Demo.flaky_server (seq 0 120)) Demo.client (Demo.call None)
           (offset_request Demo.client
              Demo.params 100)).
  - vm_compute. right. right. left. reflexivity.
  - reflexivity.
Defined.

(** ** A limit of zero *)




(** ** Missing fields of the search response *)

Section Defaults.

Context {Rec : Type}.
Variable transport : http_request -> transport_result Rec.
Variables (self : IglooClient) (a : SearchArgs).

(** A rewriting of the bodies that leaves [results] alone, or spells a
    missing [results] out as the empty list. *)
Variable f : search_json Rec -> search_json Rec.
Hypothesis same_page : forall j,
  json_results (f j) = json_results j \/
  (json_results j = Absent /\ json_results (f j) = JValue []).

Lemma request_outcome_bodies r :
  request_outcome (with_bodies f transport) r =
  match request_outcome transport r with
  | inl resp => inl (with_body f resp)
  | inr e => inr e
  end.
Proof.
  unfold request_outcome, with_bodies.
  destruct (transport r) as [resp | msg]; [ | reflexivity ].
  change (is_success (with_body f resp)) with (is_success resp).
  now destruct (is_success resp).
Qed.

Lemma collect_bodies (offsets : list Z) (req : Z -> http_request) :
  collect (map (fun o => request_outcome (with_bodies f transport) (req o)) offsets) =
  match collect (map (fun o => request_outcome transport (req o)) offsets) with
  | inl resps => inl (map (with_body f) resps)
  | inr e => inr e
  end.
Proof.
  induction offsets as [ | o os IH]; simpl; [ reflexivity | ].
  rewrite request_outcome_bodies.
  destruct (request_outcome transport (req o)) as [resp | e]; [ | reflexivity ].
  rewrite IH.
  now destruct (collect (map (fun o => request_outcome transport (req o)) os)).
Qed.

Lemma extend_results_bodies (resps : list (response Rec)) :
  forall results log,
    extend_results results (map (with_body f) resps) log =
    extend_results results resps log.
Proof.
  induction resps as [ | r rs IH]; intros results log; simpl; [ reflexivity | ].
  unfold bind, response_json.
  change (resp_json (with_body f r)) with (option_map f (resp_json r)).
  destruct (resp_json r) as [j | ]; simpl; [ | reflexivity ].
  destruct (same_page j) as [-> | [-> ->]].
  - destruct (json_results j); auto.
  - rewrite app_nil_r. apply IH.
Qed.

(** What follows the limit tests in [search_pages], for the offsets of the
    fan-out. *)
Lemma fanout_result params results offsets (lim : option Z) log
    (tr : http_request -> transport_result Rec) :
  bind (match map (page_task tr self params) offsets with
        | [] => ret results
        | _ =>
            bind (gather (map (page_task tr self params) offsets))
              (fun remaining_responses => extend_results results remaining_responses)
        end)
    (fun results => ret (up_to_limit lim results)) log =
  (match collect (map (fun o => request_outcome tr (offset_request self params o))
                    offsets) with
   | inr e => inr e
   | inl resps =>
       match fst (extend_results results resps []) with
       | inl all => inl (up_to_limit lim all)
       | inr e => inr e
       end
   end,
   (log ++ map (offset_request self params) offsets)%list).
Proof.
  unfold bind at 1. rewrite fanout_run.
  destruct (collect _) as [resps | e]; [ | reflexivity ].
  now destruct (fst (extend_results results resps [])).
Qed.

(** The pages of a search against the rewritten server are those against the
    server itself, when the rewriting changes neither the records of the
    first page nor the offsets of the fan-out. *)
Lemma search_pages_bodies params j log :
  first_results (f j) = first_results j ->
  fanout_offsets (limit a) (total_results_found (f j))
    (Py.len (first_results j)) (search_page_size self a) =
  fanout_offsets (limit a) (total_results_found j)
    (Py.len (first_results j)) (search_page_size self a) ->
  search_pages (with_bodies f transport) self a params (f j) log =
  search_pages transport self a params j log.
Proof.
  intros Hfirst Hfan. unfold search_pages. cbv zeta. rewrite Hfirst, Hfan.
  clear Hfan.
  destruct (limit_is (limit a) (fun l => l =? 0)); [ reflexivity | ].
  destruct (limit_is (limit a) (fun l => l <=? Py.len (first_results j)));
    [ reflexivity | ].
  destruct (fanout_offsets _ _ _ _) as [offsets | e]; [ | reflexivity ].
  rewrite !fanout_result, collect_bodies.
  destruct (collect _) as [resps | e]; [ | reflexivity ].
  now rewrite extend_results_bodies.
Qed.

Lemma search_bodies log :
  (forall j, first_results (f j) = first_results j) ->
  (forall j,
     fanout_offsets (limit a) (total_results_found (f j))
       (Py.len (first_results j)) (search_page_size self a) =
     fanout_offsets (limit a) (total_results_found j)
       (Py.len (first_results j)) (search_page_size self a)) ->
  search (with_bodies f transport) self a log = search transport self a log.
Proof.
  intros Hfirst Hfan.
  destruct (search_params self a) as [params | e] eqn:Hp.
  2:{ unfold search. now rewrite Hp. }
  rewrite (search_run transport self a params log Hp),
          (search_run (with_bodies f transport) self a params log Hp).
  rewrite request_outcome_bodies.
  destruct (request_outcome transport (first_request self params)) as [resp | e];
    [ | reflexivity ].
  change (resp_json (with_body f resp)) with (option_map f (resp_json resp)).
  destruct (resp_json resp) as [j | ]; [ | reflexivity ].
  apply search_pages_bodies; auto.
Qed.

End Defaults.

(** With a missing [numFound], and for a page size that is not negative, the
    fan-out is planned as on a total of 0: it is empty, or its range raises
    for the step 0. *)
Lemma fanout_offsets_no_total (lim : option Z) (n P : Z) :
  0 <= n -> 0 <= P ->
  fanout_offsets lim (Some 0) n P = fanout_offsets lim (Some n) n P.
Proof.
  intros Hn HP. unfold fanout_offsets.
  destruct (Z.eq_dec P 0) as [-> | Hne]; [ reflexivity | ].
  rewrite !range_exhausted; try lia; try reflexivity.
  - unfold results_to_fetch. destruct lim; lia.
  - unfold results_to_fetch. destruct lim; lia.
Qed.

(** C8, as stated, fails for [numFound]: a missing field is not read as 0
    but as the number of records of the first page, and a call can tell the
    two apart.  With pages of size -1, and against a server whose every
    answer is the one record 7 without [numFound], the search stops after
    the first page, since [range(1, 1, -1)] is empty; when the same server
    writes [numFound: 0], the search goes on to the offset 1 of
    [range(1, 0, -1)] and returns two records. *)
Lemma missing_numFound_is_not_zero :
  search_page_size Demo.client backward_call = -1
  /\ fst (search Demo.bare_server Demo.client backward_call []) = inl [7%nat]
  /\ List.length (snd (search Demo.bare_server Demo.client backward_call [])) = 1%nat
  /\ fst (search (with_bodies default_numFound Demo.bare_server) Demo.client
            backward_call []) = inl [7%nat; 7%nat]
  /\ map (fun r => Py.dict_get "offset" (req_params r))
       (snd (search (with_bodies default_numFound Demo.bare_server) Demo.client
               backward_call [])) = [None; Some "1"].
Proof. repeat split. Qed.

(** C8, amended: a missing [results] field is read as the empty list: the
    call runs exactly as it does against a server that writes [results: []]
    wherever the field is missing.  A missing [numFound] is read as the
    number of records of the first page: for a page size that is not
    negative the call runs exactly as it does against a server that writes
    [numFound: 0] wherever the field is missing, and for a page size other
    than 0 it requests no page beyond the first and returns the first page,
    cut to the limit if one is given.  Neither absence raises an
    exception. *)
Theorem missing_fields_are_lenient {Rec : Type}
    (transport : http_request -> transport_result Rec) (self : IglooClient)
    (a : SearchArgs) (log : list http_request) :
  search transport self a log =
  search (with_bodies default_results transport) self a log
  /\
  (0 <= search_page_size self a ->
   search transport self a log =
   search (with_bodies default_numFound transport) self a log)
  /\
  (search_page_size self a <> 0 ->
   forall params resp j,
     search_params self a = inl params ->
     transport (first_request self params) = Responded resp ->
     is_success resp = true ->
     resp_json resp = Some j ->
     json_numFound j = Absent ->
     search transport self a log =
     (inl (up_to_limit (limit a) (first_results j)),
      (log ++ [first_request self params])%list)).
Proof.
  split; [ | split ].
  - symmetry. apply search_bodies.
    + intros j. unfold default_results. simpl.
      destruct (json_results j); [ right; split | left | left ]; reflexivity.
    + intros j. unfold first_results, default_results. simpl.
      now destruct (json_results j).
    + intros j. f_equal. unfold total_results_found, first_results, default_results.
      simpl. now destruct (json_results j).
  - intros HP. symmetry. apply search_bodies.
    + intros j. left. reflexivity.
    + intros j. reflexivity.
    + intros j. unfold total_results_found at 1. cbn [default_numFound json_numFound].
      unfold total_results_found.
      destruct (json_numFound j); [ | reflexivity | reflexivity ].
      apply fanout_offsets_no_total; [ unfold Py.len; lia | exact HP ].
  - intros HP params resp j Hp Htr Hs Hj Hn.
    rewrite (search_run transport self a params log Hp).
    unfold request_outcome. rewrite Htr, Hs, Hj.
    unfold search_pages, total_results_found. rewrite Hn. cbv zeta.
    destruct (limit_is (limit a) (fun l => l =? 0)) eqn:Hz.
    { destruct (limit a) as [lim | ]; [ | discriminate ].
      simpl in Hz. apply Z.eqb_eq in Hz. subst lim. reflexivity. }
    destruct (limit_is (limit a) (fun l => l <=? Py.len (first_results j))) eqn:Hle;
      [ reflexivity | ].
    assert (Hnone : fanout_offsets (limit a) (Some (Py.len (first_results j)))
                      (Py.len (first_results j)) (search_page_size self a) = inl []).
    { unfold fanout_offsets.
      replace (results_to_fetch (limit a) (Py.len (first_results j)))
        with (Py.len (first_results j)).
      - now rewrite range_nothing.
      - destruct (limit a) as [l0 | ]; [ | reflexivity ].
        simpl in *. apply Z.leb_gt in Hle. lia. }
    now rewrite Hnone.
Qed.

Lemma missing_fields_are_lenient_witness :
  search Demo.bare_server Demo.client (Demo.call None) [] =
    search (with_bodies default_numFound Demo.bare_server) Demo.client (Demo.call None) []
  /\ search Demo.bare_server Demo.client (Demo.call None) [] =
    (inl [7%nat], [first_request Demo.client Demo.params]).
Proof.
  destruct (missing_fields_are_lenient Demo.bare_server Demo.client (Demo.call None) [])
    as [_ [Hzero Hrun]].
  split.
  - apply Hzero. vm_compute. discriminate.
  - apply (Hrun ltac:(discriminate) Demo.params
             {| status_code := 200; resp_text := "";
                resp_json := Some {| json_results := JValue [7%nat];
                                     json_numFound := Absent |} |}
             {| json_results := JValue [7%nat]; json_numFound := Absent |});
      reflexivity.
Defined.

(** ** Pages of a list *)

Section Pages.

Context {A : Type}.

Lemma firstn_plus (l : list A) :
  forall a b, firstn (a + b) l = (firstn a l ++ firstn b (skipn a l))%list.
Proof.
  induction l as [ | x l IH]; intros a b.
  - now rewrite skipn_nil, !firstn_nil.
  - destruct a as [ | a]; simpl; [ reflexivity | ]. now rewrite IH.
Qed.

(** Two prefixes of a list that agree once cut to its length are the same. *)
Lemma firstn_same (l : list A) a b :
  Nat.min a (List.length l) = Nat.min b (List.length l) -> firstn a l = firstn b l.
Proof.
  revert a b. induction l as [ | x l IH]; intros a b H.
  - now rewrite !firstn_nil.
  - destruct a as [ | a], b as [ | b]; simpl in *; try discriminate; [ reflexivity | ].
    f_equal. apply IH. lia.
Qed.

(** The pages [0 .. c-1] of size [p], one after the other, are the first
    [c * p] elements. *)
Lemma pages_concat (db : list A) (p c : nat) :
  List.concat (map (fun k => firstn p (skipn (k * p) db)) (seq 0 c)) = firstn (c * p) db.
Proof.
  induction c as [ | c IH]; [ reflexivity | ].
  rewrite seq_S, map_app, concat_app, IH. simpl.
  rewrite app_nil_r. rewrite (Nat.add_comm p (c * p)). now rewrite firstn_plus.
Qed.

End Pages.

(** ** Arithmetic of the page count *)

Lemma ceil_div_small n p : 1 <= n <= p -> ceil_div n p = 1.
Proof.
  intros H. unfold ceil_div. symmetry.
  apply (Z.div_unique_pos _ _ 1 (n - 1)); lia.
Qed.

Lemma ceil_div_zero p : 1 <= p -> ceil_div 0 p = 0.
Proof. intros H. unfold ceil_div. apply Z.div_small. lia. Qed.

Lemma ceil_div_succ n p : 1 <= p -> ceil_div n p = (n - 1) / p + 1.
Proof.
  intros H. unfold ceil_div.
  replace (n + p - 1) with (n - 1 + 1 * p) by lia.
  apply Z.div_add. lia.
Qed.

Lemma ceil_div_covers n p : 1 <= p -> n <= ceil_div n p * p.
Proof.
  intros H. rewrite ceil_div_succ by lia.
  pose proof (Z.mul_succ_div_gt (n - 1) p ltac:(lia)). lia.
Qed.

(** ** A search against a server that pages through its matches *)

Section Pagination.

Context {Rec : Type}.
Variable transport : http_request -> transport_result Rec.
Variables (self : IglooClient) (params : list (string * string)).
Variables (db : list Rec) (P : Z).
Hypothesis P_positive : 1 <= P.
Hypothesis served : serves transport self params db P.

Lemma returns_page_outcome r page total :
  returns_page transport r page total ->
  exists resp,
    request_outcome transport r = inl resp /\
    resp_json resp = Some {| json_results := JValue page; json_numFound := JValue total |}.
Proof.
  intros [resp [Ht [Hs Hj]]]. exists resp.
  unfold request_outcome. now rewrite Ht, Hs.
Qed.

Lemma served_first :
  exists resp,
    request_outcome transport (first_request self params) = inl resp /\
    resp_json resp =
      Some {| json_results := JValue (firstn (Z.to_nat P) db);
              json_numFound := JValue (Py.len db) |}.
Proof. destruct served as [H0 _]. apply returns_page_outcome in H0. exact H0. Qed.

(** The fan-out succeeds at every offset, and the loop over its responses
    appends the pages in offset order. *)
Lemma served_offsets offsets :
  Forall (fun o => 0 <= o) offsets ->
  forall results,
  exists resps,
    map (fun o => request_outcome transport (offset_request self params o)) offsets
      = map inl resps /\
    fst (extend_results results resps []) =
      inl (results ++ List.concat (map (server_page db P) offsets))%list.
Proof.
  induction 1 as [ | o os Ho _ IH]; intros results.
  - exists []. simpl. now rewrite app_nil_r.
  - destruct served as [_ Hpage].
    destruct (returns_page_outcome _ _ _ (Hpage o Ho)) as [resp [Hout Hj]].
    destruct (IH (results ++ server_page db P o)%list) as [resps [Hmap Hext]].
    exists (resp :: resps). simpl. split.
    + now rewrite Hout, Hmap.
    + unfold bind, response_json. rewrite Hj. simpl.
      rewrite extend_results_run. simpl. rewrite Hext. now rewrite <- app_assoc.
Qed.

(** The pages at the offsets [P, 2P, ..., cP], after the first page, are the
    first [(c + 1) * P] records. *)
Lemma first_and_pages (c : nat) :
  (firstn (Z.to_nat P) db
   ++ List.concat (map (server_page db P)
                     (map (fun k => P + Z.of_nat k * P) (seq 0 c))))%list
  = firstn (S c * Z.to_nat P) db.
Proof.
  rewrite <- pages_concat. rewrite <- cons_seq, <- seq_shift. simpl.
  f_equal. rewrite !map_map. f_equal. apply map_ext. intros k.
  unfold server_page. f_equal. f_equal.
  rewrite Z2Nat.inj_add, Z2Nat.inj_mul, Nat2Z.id by lia. lia.
Qed.

End Pagination.

(** The range of the fan-out when the first page is full and more is
    wanted. *)
Lemma fanout_offsets_full lim total P :
  1 <= P -> P < results_to_fetch lim total ->
  fanout_offsets lim (Some total) P P =
  inl (map (fun k => P + Z.of_nat k * P)
         (seq 0 (Z.to_nat (ceil_div (results_to_fetch lim total) P) - 1))).
Proof.
  intros HP Hn. unfold fanout_offsets, Py.range.
  destruct (P =? 0) eqn:H0; [ apply Z.eqb_eq in H0; lia | ].
  destruct (0 <? P) eqn:Hpos; [ | apply Z.ltb_ge in Hpos; lia ].
  do 4 f_equal. rewrite ceil_div_succ by lia.
  replace (results_to_fetch lim total - P + P - 1) with (results_to_fetch lim total - 1) by lia.
  assert (0 <= (results_to_fetch lim total - 1) / P) by (apply Z.div_pos; lia).
  lia.
Qed.

Lemma fanout_offsets_nonneg (c : nat) P :
  1 <= P -> Forall (fun o => 0 <= o) (map (fun k => P + Z.of_nat k * P) (seq 0 c)).
Proof. intros HP. apply Forall_forall. intros o Hin. apply in_map_iff in Hin as [k [<- _]]. nia. Qed.

(** C2, as stated, fails: when the server reports no match, the formula
    gives [ceil(0 / 50) = 0] requests, yet the first page has been
    requested. *)
Lemma no_match_still_one_request :
  ceil_div (results_to_fetch (limit (Demo.call None)) (Py.len (@nil nat)))
    (search_page_size Demo.client (Demo.call None)) = 0
  /\ Py.len (snd (search (Demo.paged_server []) Demo.client (Demo.call None) [])) = 1
  /\ fst (search (Demo.paged_server []) Demo.client (Demo.call None) []) = inl [].
Proof. repeat split. Qed.

(** C2, amended: against a server that reports [T = len(db)] matches and
    answers every page request with the records at its offset, a search with
    page size [P >= 1] and limit [L >= 0] (or none) that passes validation
    returns the first [n = min(L, T)] records ([T] without a limit) in the
    order of the server, so a result of length [n]; it issues the request of
    the first page and then those of the offsets [P, 2P, ...] below [n], in
    that order: [max(1, ceil(n / P))] requests, since the first page is
    requested even when [n = 0]. *)
Theorem search_pagination {Rec : Type}
    (transport : http_request -> transport_result Rec) (self : IglooClient)
    (a : SearchArgs) (params : list (string * string)) (db : list Rec) :
  1 <= search_page_size self a ->
  limit_is (limit a) (fun l => l <? 0) = false ->
  search_params self a = inl params ->
  serves transport self params db (search_page_size self a) ->
  let P := search_page_size self a in
  let n := results_to_fetch (limit a) (Py.len db) in
  search transport self a [] =
    (inl (firstn (Z.to_nat n) db),
     first_request self params
       :: map (fun k => offset_request self params (Z.of_nat k * P))
            (seq 1 (Z.to_nat (ceil_div n P) - 1)))
  /\ Py.len (snd (search transport self a [])) = Z.max 1 (ceil_div n P)
  /\ Py.len (firstn (Z.to_nat n) db) = n.
Proof.
  intros HP Hlim Hp Hserved P n.
  assert (Hn : 0 <= n <= Py.len db).
  { unfold n, results_to_fetch, Py.len. destruct (limit a) as [l | ]; simpl in Hlim.
    - apply Z.ltb_ge in Hlim. lia.
    - lia. }
  assert (Hrun :
    search transport self a [] =
    (inl (firstn (Z.to_nat n) db),
     first_request self params
       :: map (fun k => offset_request self params (Z.of_nat k * P))
            (seq 1 (Z.to_nat (ceil_div n P) - 1)))).
  { rewrite (search_run transport self a params [] Hp).
    destruct (served_first transport self params db P Hserved) as [resp [Hout Hj]].
    rewrite Hout, Hj. unfold search_pages.
    cbv zeta. fold P.
    set (j := {| json_results := JValue (firstn (Z.to_nat P) db);
                 json_numFound := JValue (Py.len db) |}).
    change (first_results j) with (firstn (Z.to_nat P) db).
    change (total_results_found j) with (Some (Py.len db)).
    assert (Hfp : Py.len (firstn (Z.to_nat P) db) = Z.min P (Py.len db)).
    { unfold Py.len. rewrite length_firstn. lia. }
    destruct (limit_is (limit a) (fun l => l =? 0)) eqn:Hzero.
    { (* limit == 0 *)
      destruct (limit a) as [l | ] eqn:Hl; [ | discriminate ].
      simpl in Hzero. apply Z.eqb_eq in Hzero. subst l.
      assert (n = 0) as -> by (unfold n, results_to_fetch; try rewrite Hl; lia).
      rewrite ceil_div_zero by lia. reflexivity. }
    destruct (limit_is (limit a) (fun l => l <=? Py.len (firstn (Z.to_nat P) db))) eqn:Hle.
    { (* the first page satisfies the limit *)
      destruct (limit a) as [l | ] eqn:Hl; [ | discriminate ].
      simpl in Hzero, Hle, Hlim.
      apply Z.eqb_neq in Hzero. apply Z.leb_le in Hle. apply Z.ltb_ge in Hlim.
      assert (n = l) as -> by (unfold n, results_to_fetch; try rewrite Hl; lia).
      rewrite ceil_div_small by lia. unfold ret. simpl. do 2 f_equal.
      unfold Py.slice_to. destruct (0 <=? l) eqn:H0; [ | apply Z.leb_gt in H0; lia ].
      rewrite firstn_firstn. f_equal. lia. }
    fold n.
    assert (Hbeyond : forall l, limit a = Some l -> Z.min P (Py.len db) < l).
    { intros l Hl. rewrite Hl in Hle. simpl in Hle. apply Z.leb_gt in Hle. lia. }
    destruct (Z_le_gt_dec (Py.len db) P) as [Hsmall | Hlarge].
    - (* every match is on the first page *)
      assert (Hn' : n = Py.len db).
      { unfold n, results_to_fetch. destruct (limit a) as [l | ] eqn:Hl; [ | reflexivity ].
        specialize (Hbeyond l eq_refl). lia. }
      rewrite Hfp, Z.min_r by lia.
      unfold fanout_offsets. fold n. rewrite Hn'. rewrite range_nothing by lia.
      simpl. unfold bind, ret. simpl.
      replace (Z.to_nat (ceil_div (Py.len db) P) - 1)%nat with 0%nat.
      2:{ destruct (Z.eq_dec (Py.len db) 0) as [-> | Hne].
          - now rewrite ceil_div_zero by lia.
          - rewrite ceil_div_small; [ reflexivity | unfold Py.len in *; lia ]. }
      simpl. do 2 f_equal.
      unfold up_to_limit. destruct (limit a) as [l | ] eqn:Hl.
      + specialize (Hbeyond l eq_refl). unfold Py.slice_to.
        destruct (0 <=? l) eqn:H0; [ | apply Z.leb_gt in H0; lia ].
        rewrite firstn_firstn. apply firstn_same. unfold Py.len in *. lia.
      + apply firstn_same. unfold Py.len in *. lia.
    - (* the first page is full and more is wanted *)
      assert (Hmore : P < n).
      { unfold n, results_to_fetch. destruct (limit a) as [l | ] eqn:Hl; [ | lia ].
        specialize (Hbeyond l eq_refl). lia. }
      rewrite Hfp, Z.min_l by lia.
      unfold n in Hmore. rewrite fanout_offsets_full by assumption. fold n.
      set (c := (Z.to_nat (ceil_div n P) - 1)%nat).
      cbv zeta. unfold bind at 1. rewrite fanout_run.
      destruct (served_offsets transport self params db P Hserved
                  (map (fun k => P + Z.of_nat k * P) (seq 0 c))
                  (fanout_offsets_nonneg c P HP) (firstn (Z.to_nat P) db))
        as [resps [Hmap Hext]].
      rewrite Hmap, collect_inl, Hext. rewrite first_and_pages by assumption.
      unfold ret. f_equal.
      + f_equal. pose proof (ceil_div_covers n P HP) as Hcov.
        pose proof (ceil_div_succ n P HP) as Hsucc.
        assert (0 <= (n - 1) / P) by (apply Z.div_pos; lia).
        assert (Hc : Z.of_nat (S c * Z.to_nat P) = ceil_div n P * P).
        { unfold c. rewrite Nat2Z.inj_mul. rewrite Z2Nat.id by lia.
          f_equal. lia. }
        unfold up_to_limit. destruct (limit a) as [l | ] eqn:Hl.
        * specialize (Hbeyond l eq_refl). unfold Py.slice_to.
          destruct (0 <=? l) eqn:H0; [ | apply Z.leb_gt in H0; lia ].
          rewrite firstn_firstn. apply firstn_same.
          unfold n, results_to_fetch, Py.len in *. lia.
        * apply firstn_same.
          unfold n, results_to_fetch, Py.len in *. lia.
      + simpl. f_equal. rewrite map_map. rewrite <- seq_shift, map_map.
        apply map_ext. intros k. f_equal. lia. }
  split; [ exact Hrun | ]. split.
  - rewrite Hrun. simpl snd. unfold Py.len. simpl List.length.
    rewrite length_map, length_seq.
    destruct (Z.eq_dec n 0) as [Hn0 | Hn0].
    + rewrite Hn0, ceil_div_zero by lia. reflexivity.
    + pose proof (ceil_div_succ n P HP) as Hsucc.
      assert (0 <= (n - 1) / P) by (apply Z.div_pos; lia). lia.
  - unfold Py.len in *. rewrite length_firstn. lia.
Qed.

Lemma parse_int_str (o : Z) : Demo.parse_int (Py.str_of_int o) = Some o.
Proof.
  unfold Demo.parse_int, Py.str_of_int.
  rewrite NilZero.isi.
  - simpl. now rewrite DecimalZ.of_to.
  - destruct o; simpl; try discriminate.
    intros [= H]. now apply DecimalPos.Unsigned.to_uint_nonnil in H.
  - destruct o; simpl; try discriminate.
    intros [= H]. now apply DecimalPos.Unsigned.to_uint_nonnil in H.
Qed.

Lemma paged_server_serves (records : list nat) :
  serves (Demo.paged_server records) Demo.client Demo.params records 50.
Proof.
  split.
  - eexists. repeat split.
  - intros o Ho. eexists. split; [ reflexivity | ]. split; [ reflexivity | ].
    simpl. do 2 f_equal. unfold Demo.json_page. f_equal.
    unfold Demo.int_param. simpl. now rewrite parse_int_str.
Qed.

Lemma search_pagination_witness :
  search (Demo.paged_server (seq 0 120)) Demo.client (Demo.call None) [] =
    (inl (seq 0 120),
     [first_request Demo.client Demo.params;
      offset_request Demo.client Demo.params 50;
      offset_request Demo.client Demo.params 100]).
Proof.
  destruct (search_pagination (Demo.paged_server (seq 0 120)) Demo.client (Demo.call None)
              Demo.params (seq 0 120)) as [Hrun _].
  - discriminate.
  - reflexivity.
  - reflexivity.
  - apply paged_server_serves.
  - exact Hrun.
Defined.

(** ** Windows of a document *)

Lemma append_empty_r (s : string) : s ++ "" = s.
Proof. induction s as [ | c s IH]; simpl; [ reflexivity | now rewrite IH ]. Qed.

Lemma length_take (s : string) :
  forall n, String.length (Py.take n s) = Nat.min n (String.length s).
Proof.
  induction s as [ | c s IH]; intros [ | n]; simpl; try reflexivity.
  now rewrite IH.
Qed.

Lemma length_drop (s : string) :
  forall n, String.length (Py.drop n s) = (String.length s - n)%nat.
Proof. induction s as [ | c s IH]; intros [ | n]; simpl; auto. Qed.

Lemma take_all (s : string) :
  forall n, (String.length s <= n)%nat -> Py.take n s = s.
Proof.
  induction s as [ | c s IH]; intros [ | n] H; simpl in *; try reflexivity; try lia.
  rewrite IH; [ reflexivity | lia ].
Qed.

Lemma take_drop (s : string) : forall n, Py.take n s ++ Py.drop n s = s.
Proof.
  induction s as [ | c s IH]; intros [ | n]; simpl; try reflexivity.
  now rewrite IH.
Qed.

Lemma drop_drop (s : string) :
  forall a b, Py.drop b (Py.drop a s) = Py.drop (a + b) s.
Proof.
  induction s as [ | c s IH]; intros [ | a] b; simpl; try reflexivity.
  - now destruct b.
  - apply IH.
Qed.

(** A budget of at least one character: reading from [start_index] ends
    after at most as many calls as characters are left, plus one. *)
Lemma read_document_from (doc : FetchableDocument) (max_chars : nat) :
  (1 <= max_chars)%nat ->
  forall left_ start_index,
    (String.length (doc_text doc) - start_index <= left_)%nat ->
    exists windows,
      (forall fuel, (left_ < fuel)%nat ->
         read_document fuel doc max_chars start_index = Some windows) /\
      join_windows windows = Py.drop start_index (doc_text doc) /\
      contiguous start_index windows /\
      Forall (fun w => (String.length (snd w) <= max_chars)%nat) windows.
Proof.
  intros Hmax. induction left_ as [ | left_ IH]; intros start_index Hleft.
  - exists [(start_index, Py.take max_chars (Py.drop start_index (doc_text doc)))].
    assert (Hlen : String.length (Py.take max_chars (Py.drop start_index (doc_text doc))) = 0%nat)
      by (rewrite length_take, length_drop; lia).
    repeat split.
    + intros [ | fuel] Hfuel; [ lia | ]. simpl. rewrite Hlen.
      replace (_ <=? _)%nat with true by (symmetry; apply Nat.leb_le; lia).
      reflexivity.
    + unfold join_windows. simpl. rewrite append_empty_r.
      apply take_all. rewrite length_drop. lia.
    + constructor; [ | constructor ]. simpl. lia.
  - set (window := Py.take max_chars (Py.drop start_index (doc_text doc))).
    assert (Hlen : String.length window
                   = Nat.min max_chars (String.length (doc_text doc) - start_index))
      by (unfold window; now rewrite length_take, length_drop).
    destruct (le_lt_dec (String.length (doc_text doc)) (start_index + String.length window))
      as [Hdone | Hmore].
    + exists [(start_index, window)]. repeat split.
      * intros [ | fuel] Hfuel; [ lia | ]. simpl. fold window.
        replace (_ <=? _)%nat with true by (symmetry; apply Nat.leb_le; lia).
        reflexivity.
      * unfold join_windows. simpl. rewrite append_empty_r.
        apply take_all. rewrite length_drop. lia.
      * constructor; [ | constructor ]. simpl. lia.
    + assert (Hfull : String.length window = max_chars) by lia.
      destruct (IH (start_index + max_chars)%nat ltac:(lia)) as [rest [Hrun [Hjoin [Hcont Hsize]]]].
      exists ((start_index, window) :: rest). repeat split.
      * intros [ | fuel] Hfuel; [ lia | ]. simpl. fold window.
        replace (_ <=? _)%nat with false by (symmetry; apply Nat.leb_gt; lia).
        simpl. rewrite Nat2Z.id, Hfull. rewrite Hrun by lia. reflexivity.
      * unfold join_windows in *. simpl. rewrite Hjoin.
        rewrite <- drop_drop. apply take_drop.
      * simpl. now rewrite Hfull.
      * constructor; [ simpl; lia | exact Hsize ].
Qed.

(** C3, as stated, fails for a budget of no character: every window of a
    non-empty document is empty and partial, with [next_start_index] equal
    to [start_index], and no number of calls reaches the complete status. *)
Lemma empty_budget_never_completes :
  snd (truncate_document {| doc_text := "a"; doc_toc := None |} 0 0)
  = {| status := "partial"; chars_returned := 0; chars_total := 1;
       current_path := None; remaining_sections := []; next_start_index := Some 0 |}
  /\ ~ exists fuel windows,
         read_document fuel {| doc_text := "a"; doc_toc := None |} 0 0 = Some windows.
Proof.
  split; [ reflexivity | ].
  intros [fuel [windows H]]. revert windows H.
  induction fuel as [ | fuel IH]; intros windows H; [ discriminate | ].
  simpl in H.
  destruct (read_document fuel {| doc_text := "a"; doc_toc := None |} 0 0) as [ws | ] eqn:Hr;
    [ | discriminate ].
  apply (IH ws). reflexivity.
Qed.

(** C3, amended: for every document and every budget [max_chars] of at least
    one character, the calls that start at [start_index = 0] and feed each
    partial window's [next_start_index] back as the next [start_index] reach
    the complete status (after at most [D + 1] calls for a document of length
    [D]); the windows returned, put one after the other, are the document,
    each window starts where the one before it ended, and none is longer
    than the budget. *)
Theorem continuation_reconstructs (doc : FetchableDocument) (max_chars : nat) :
  (1 <= max_chars)%nat ->
  exists windows,
    (forall fuel, (String.length (doc_text doc) < fuel)%nat ->
       read_document fuel doc max_chars 0 = Some windows) /\
    join_windows windows = doc_text doc /\
    contiguous 0 windows /\
    Forall (fun w => (String.length (snd w) <= max_chars)%nat) windows.
Proof.
  intros Hmax.
  destruct (read_document_from doc max_chars Hmax (String.length (doc_text doc)) 0
              ltac:(lia)) as [windows [Hrun [Hjoin [Hcont Hsize]]]].
  exists windows. repeat split; assumption.
Qed.

Lemma continuation_reconstructs_witness :
  exists windows,
    read_document 12 {| doc_text := "hello world"; doc_toc := None |} 4 0 = Some windows /\
    join_windows windows = "hello world".
Proof.
  destruct (continuation_reconstructs {| doc_text := "hello world"; doc_toc := None |} 4)
    as [windows [Hrun [Hjoin _]]].
  - lia.
  - exists windows. split; [ apply Hrun; simpl; lia | exact Hjoin ].
Defined.

(** ** Short-text truncation *)

Lemma rsplit_once_none sep (s : string) :
  Py.contains sep s = false -> Py.rsplit_once sep s = [s].
Proof.
  induction s as [ | c s IH]; simpl; [ reflexivity | ].
  intros H. apply orb_false_iff in H as [Hc Hs].
  rewrite (IH Hs), Hc. reflexivity.
Qed.

Lemma rsplit_once_last sep (head tail : string) :
  Py.contains sep tail = false ->
  Py.rsplit_once sep (head ++ String sep tail) = [head; tail].
Proof.
  intros Ht. induction head as [ | c head IH]; simpl.
  - rewrite (rsplit_once_none sep tail Ht), Ascii.eqb_refl.
    now destruct tail.
  - now rewrite IH.
Qed.

(** A string that holds the separator splits at its last occurrence. *)
Lemma last_occurrence sep (s : string) :
  Py.contains sep s = true ->
  exists head tail, s = head ++ String sep tail /\ Py.contains sep tail = false.
Proof.
  induction s as [ | c s IH]; simpl; [ discriminate | ].
  intros H. destruct (Py.contains sep s) eqn:Hs.
  - destruct (IH eq_refl) as [head [tail [-> Ht]]].
    exists (String c head), tail. split; [ reflexivity | exact Ht ].
  - rewrite orb_false_r in H. apply Ascii.eqb_eq in H. subst c.
    exists "", s. split; [ reflexivity | exact Hs ].
Qed.

Lemma prefix_append (p s : string) : String.prefix p (p ++ s) = true.
Proof.
  induction p as [ | c p IH]; simpl; [ now destruct s | ].
  destruct (ascii_dec c c) as [ _ | Hne ]; [ exact IH | now destruct Hne ].
Qed.

Lemma prefix_take (s : string) : forall n, String.prefix (Py.take n s) s = true.
Proof.
  induction s as [ | c s IH]; intros [ | n]; simpl; try reflexivity.
  destruct (ascii_dec c c) as [ _ | Hne ]; [ apply IH | now destruct Hne ].
Qed.

Lemma append_assoc (s t u : string) : (s ++ t) ++ u = s ++ (t ++ u).
Proof. induction s as [ | c s IH]; simpl; [ reflexivity | now rewrite IH ]. Qed.

Lemma length_append (s t : string) :
  String.length (s ++ t) = (String.length s + String.length t)%nat.
Proof. induction s as [ | c s IH]; simpl; [ reflexivity | now rewrite IH ]. Qed.

(** C9, as stated, fails: the helper does not trim the first [max_length]
    characters back to the last whole word.  It cuts before the last space
    of the window, so a window that ends on a whole word loses that word:
    the first 11 characters of ["hello world foo"] are ["hello world"], and
    the result is ["hello..."].  And it keeps a window without a space as it
    is, in the middle of a word: the first 5 characters of
    ["helloworldfoo"] come back as ["hello..."]. *)
Lemma truncation_is_not_word_aware :
  Py.str_slice_to "hello world foo" 11 = "hello world"
  /\ _truncate_text "hello world foo" 11 = "hello..."
  /\ _truncate_text "hello world foo" 11 <> "hello world..."
  /\ Py.str_slice_to "helloworldfoo" 5 = "hello"
  /\ _truncate_text "helloworldfoo" 5 = "hello...".
Proof.
  split; [ reflexivity | ]. split; [ reflexivity | ].
  split; [ discriminate | ]. split; reflexivity.
Qed.

(** C9, amended: a text of at most [max_length] characters is returned
    unchanged.  A longer text is cut to the window [text[:max_length]], its
    first [max_length] characters when [max_length >= 0] and the text
    without its last [-max_length] characters when [max_length < 0]; the
    window is then cut before its last space, which drops its last word
    whether that word is whole or not, or kept as it is when it holds no
    space; and ["..."] is appended. *)
Theorem truncate_text_correct (text : string) (max_length : Z) :
  (Py.len_str text <= max_length -> _truncate_text text max_length = text)
  /\
  (0 <= max_length ->
   Py.str_slice_to text max_length = Py.take (Z.to_nat max_length) text)
  /\
  (max_length < 0 ->
   Py.str_slice_to text max_length =
   Py.take (String.length text - Z.to_nat (- max_length)) text)
  /\
  (max_length < Py.len_str text ->
   let window := Py.str_slice_to text max_length in
   (Py.contains " " window = false ->
      _truncate_text text max_length = window ++ "...") /\
   (forall head tail,
      window = head ++ String " " tail ->
      Py.contains " " tail = false ->
      _truncate_text text max_length = head ++ "...") /\
   (exists kept,
      _truncate_text text max_length = kept ++ "..." /\
      String.prefix kept window = true /\
      String.prefix window text = true /\
      (0 <= max_length -> Z.of_nat (String.length kept) <= max_length))).
Proof.
  unfold _truncate_text. split; [ | split; [ | split ] ].
  - intros H. apply Z.leb_le in H. now rewrite H.
  - intros H. unfold Py.str_slice_to. apply Z.leb_le in H. now rewrite H.
  - intros H. unfold Py.str_slice_to, Py.len_str.
    destruct (0 <=? max_length) eqn:Hpos; [ apply Z.leb_le in Hpos; lia | ].
    f_equal. lia.
  - intros Hlt. cbv zeta.
    destruct (Py.len_str text <=? max_length) eqn:Hle; [ apply Z.leb_le in Hle; lia | ].
    set (window := Py.str_slice_to text max_length).
    assert (Hwin : String.prefix window text = true /\
                   (0 <= max_length -> Z.of_nat (String.length window) <= max_length)).
    { unfold window, Py.str_slice_to.
      destruct (0 <=? max_length) eqn:Hpos.
      - apply Z.leb_le in Hpos. split; [ apply prefix_take | ].
        rewrite length_take. lia.
      - apply Z.leb_gt in Hpos. split; [ apply prefix_take | lia ]. }
    destruct Hwin as [Hpre Hwlen].
    assert (Hnone : Py.contains " " window = false ->
                    Py.item0 (Py.rsplit_once " " window) ++ "..." = window ++ "...").
    { intros Hn. now rewrite rsplit_once_none. }
    assert (Hlast : forall head tail,
               window = head ++ String " " tail ->
               Py.contains " " tail = false ->
               Py.item0 (Py.rsplit_once " " window) ++ "..." = head ++ "...").
    { intros head tail -> Ht. now rewrite rsplit_once_last. }
    split; [ exact Hnone | ]. split; [ exact Hlast | ].
    destruct (Py.contains " " window) eqn:Hc.
    + destruct (last_occurrence " " window Hc) as [head [tail [Hsplit Ht]]].
      exists head. split; [ now apply (Hlast head tail) | ]. split.
      * rewrite Hsplit. apply prefix_append.
      * split; [ exact Hpre | ]. intros Hpos. specialize (Hwlen Hpos).
        rewrite Hsplit, length_append in Hwlen. lia.
    + exists window. split; [ now apply Hnone | ]. split.
      * rewrite <- (append_empty_r window) at 2. apply prefix_append.
      * split; [ exact Hpre | exact Hwlen ].
Qed.

Lemma truncate_text_correct_witness :
  _truncate_text "short text" 200 = "short text"
  /\ _truncate_text "hello world foo" 13 = "hello world..."
  /\ _truncate_text "hello world foo" 11 = "hello..."
  /\ _truncate_text "helloworldfoo" 5 = "hello..."
  /\ Py.str_slice_to "hello world foo" (-4) = "hello world".
Proof.
  destruct (truncate_text_correct "short text" 200) as [Hshort _].
  destruct (truncate_text_correct "hello world foo" 13) as [_ [_ [_ Hcut]]].
  destruct (truncate_text_correct "hello world foo" 11) as [_ [_ [_ Hwhole]]].
  destruct (truncate_text_correct "helloworldfoo" 5) as [_ [_ [_ Hword]]].
  destruct (truncate_text_correct "hello world foo" (-4)) as [_ [_ [Hneg _]]].
  split; [ apply Hshort; vm_compute; discriminate | ].
  split.
  { destruct Hcut as [_ [Hlast _]]; [ reflexivity | ].
    apply (Hlast "hello world" "f"); reflexivity. }
  split.
  { destruct Hwhole as [_ [Hlast _]]; [ reflexivity | ].
    apply (Hlast "hello" "world"); reflexivity. }
  split.
  { destruct Hword as [Hnone _]; [ reflexivity | ].
    apply Hnone. reflexivity. }
  rewrite Hneg by reflexivity. reflexivity.
Defined.

(** ** The percentage of a truncated document *)

Section Rounding.

Import SpecFloat.

Lemma fexp64_eq e : fexp PyFloat.prec PyFloat.emax e = Z.max (e - 53) (-1074).
Proof. reflexivity. Qed.

(** A positive number of [d] binary digits lies in [[2^(d-1), 2^d)]. *)
Lemma digits2_pos_bounds (p : positive) :
  2 ^ (Zpos (digits2_pos p) - 1) <= Zpos p < 2 ^ Zpos (digits2_pos p).
Proof.
  induction p as [p IH | p IH | ]; simpl digits2_pos.
  - rewrite Pos2Z.inj_succ.
    replace (Z.succ (Zpos (digits2_pos p)) - 1) with (Z.succ (Zpos (digits2_pos p) - 1)) by lia.
    rewrite !Z.pow_succ_r by lia. lia.
  - rewrite Pos2Z.inj_succ.
    replace (Z.succ (Zpos (digits2_pos p)) - 1) with (Z.succ (Zpos (digits2_pos p) - 1)) by lia.
    rewrite !Z.pow_succ_r by lia. lia.
  - simpl. lia.
Qed.

Lemma Zdigits2_bounds (m : Z) :
  0 < m -> 2 ^ (Zdigits2 m - 1) <= m < 2 ^ Zdigits2 m.
Proof. destruct m as [ | p | p]; try lia. intros _. apply digits2_pos_bounds. Qed.

Lemma Zdigits2_pos (m : Z) : 0 < m -> 0 < Zdigits2 m.
Proof. destruct m; simpl; lia. Qed.

Lemma Zdigits2_le (m d : Z) : 0 < m -> m < 2 ^ d -> Zdigits2 m <= d.
Proof.
  intros Hm Hd. pose proof (Zdigits2_bounds m Hm) as [Hlo _].
  pose proof (Zdigits2_pos m Hm).
  destruct (Z_le_gt_dec (Zdigits2 m) d) as [ | Hgt]; [ assumption | ].
  exfalso. assert (0 <= d) by (destruct d; simpl in Hd; lia).
  assert (2 ^ d <= 2 ^ (Zdigits2 m - 1)) by (apply Z.pow_le_mono_r; lia). lia.
Qed.

Lemma Zdigits2_ge (m d : Z) : 2 ^ (d - 1) <= m -> 0 < m -> d <= Zdigits2 m.
Proof.
  intros Hd Hm. pose proof (Zdigits2_bounds m Hm) as [_ Hhi].
  pose proof (Zdigits2_pos m Hm).
  destruct (Z_le_gt_dec d (Zdigits2 m)) as [ | Hgt]; [ assumption | ].
  exfalso.
  assert (2 ^ Zdigits2 m <= 2 ^ (d - 1)) by (apply Z.pow_le_mono_r; lia). lia.
Qed.


Lemma loc_of_record_of_loc m l : loc_of_shr_record (shr_record_of_loc m l) = l.
Proof. now destruct l as [ | [ | | ]]. Qed.

Lemma shr_m_record_of_loc m l : shr_m (shr_record_of_loc m l) = m.
Proof. now destruct l as [ | [ | | ]]. Qed.

(** No shift when the exponent is already the one of the format. *)
Lemma shr_fexp_keep m e l :
  fexp PyFloat.prec PyFloat.emax (Zdigits2 m + e) <= e ->
  shr_fexp PyFloat.prec PyFloat.emax m e l = (shr_record_of_loc m l, e).
Proof.
  intros H. unfold shr_fexp, shr.
  destruct (fexp PyFloat.prec PyFloat.emax (Zdigits2 m + e) - e) eqn:Hn;
    try reflexivity. lia.
Qed.

(** A shift by one binary digit. *)
Lemma shr_fexp_one m e l :
  fexp PyFloat.prec PyFloat.emax (Zdigits2 m + e) = e + 1 ->
  shr_fexp PyFloat.prec PyFloat.emax m e l = (shr_1 (shr_record_of_loc m l), e + 1).
Proof.
  intros H. unfold shr_fexp, shr.
  replace (fexp PyFloat.prec PyFloat.emax (Zdigits2 m + e) - e) with 1 by lia.
  reflexivity.
Qed.

Lemma round_nearest_even_bounds q l :
  q <= round_nearest_even q l <= q + 1.
Proof. destruct l as [ | [ | | ]]; simpl; try destruct (Z.even q); lia. Qed.

Lemma fexp64_small m e :
  0 <= m < 2 ^ 53 -> -1074 <= e ->
  fexp PyFloat.prec PyFloat.emax (Zdigits2 m + e) <= e.
Proof.
  intros Hm He. rewrite fexp64_eq.
  destruct (Z.eq_dec m 0) as [-> | Hne]; [ simpl; lia | ].
  pose proof (Zdigits2_le m 53 ltac:(lia) ltac:(lia)). lia.
Qed.

Lemma fexp64_carry m e :
  2 ^ 53 <= m < 2 ^ 54 -> -1074 <= e ->
  fexp PyFloat.prec PyFloat.emax (Zdigits2 m + e) = e + 1.
Proof.
  intros Hm He. rewrite fexp64_eq.
  pose proof (Zdigits2_le m 54 ltac:(lia) ltac:(lia)).
  pose proof (Zdigits2_ge m 54 ltac:(simpl; lia) ltac:(lia)). lia.
Qed.

(** Rounding a significand below [2^53]: the result is that significand or
    the next one, renormalised when it reaches [2^53]. *)
Lemma round_aux_small q e l :
  0 <= q < 2 ^ 53 -> -1074 <= e <= 900 ->
  (round_nearest_even q l = 0 /\
   binary_round_aux PyFloat.prec PyFloat.emax false q e l = S754_zero false)
  \/
  (exists m2 e2,
     binary_round_aux PyFloat.prec PyFloat.emax false q e l = S754_finite false m2 e2 /\
     e <= e2 <= e + 1 /\
     Zpos m2 * 2 ^ (e2 - e) = round_nearest_even q l).
Proof.
  intros Hq He. unfold binary_round_aux.
  rewrite shr_fexp_keep by (apply fexp64_small; lia).
  rewrite shr_m_record_of_loc, loc_of_record_of_loc.
  pose proof (round_nearest_even_bounds q l) as Hm.
  set (m1 := round_nearest_even q l) in *.
  destruct (Z_lt_le_dec m1 (2 ^ 53)) as [Hlt | Hge].
  - rewrite shr_fexp_keep by (apply fexp64_small; lia).
    simpl shr_m. destruct m1 as [ | p | p] eqn:Hm1; try lia.
    + left. split; reflexivity.
    + right. exists p, e.
      replace (e <=? PyFloat.emax - PyFloat.prec) with true
        by (symmetry; apply Z.leb_le; unfold PyFloat.emax, PyFloat.prec; lia).
      split; [ reflexivity | ]. split; [ lia | ].
      rewrite Z.sub_diag. simpl. lia.
  - assert (Hm1 : m1 = 2 ^ 53) by lia.
    rewrite shr_fexp_one by (apply fexp64_carry; lia).
    rewrite Hm1. right. exists (Z.to_pos (2 ^ 52)), (e + 1).
    replace (e + 1 <=? PyFloat.emax - PyFloat.prec) with true
      by (symmetry; apply Z.leb_le; unfold PyFloat.emax, PyFloat.prec; lia).
    split; [ reflexivity | ]. split; [ lia | ].
    replace (e + 1 - e) with 1 by lia. reflexivity.
Qed.


Lemma shr_1_m q l : 0 < q -> shr_m (shr_1 (shr_record_of_loc q l)) = q / 2.
Proof.
  intros Hq. destruct q as [ | p | p]; try lia.
  destruct p as [p | p | ]; destruct l as [ | [ | | ]]; simpl shr_m.
  all: try (apply (Z.div_unique_pos _ _ _ 1); lia).
  all: try (apply (Z.div_unique_pos _ _ _ 0); lia).
  all: reflexivity.
Qed.

(** After one shift the significand is rounded up only if the digit shifted
    out was a one. *)
Lemma shift_round_up q l :
  0 < q ->
  round_nearest_even (q / 2) (PyFloat.after_shift q l) <> q / 2 -> Z.odd q = true.
Proof.
  intros Hq. destruct q as [ | p | p]; try lia.
  destruct p as [p | p | ]; try reflexivity.
  intros H. exfalso. apply H.
  unfold PyFloat.after_shift. destruct l as [ | [ | | ]]; reflexivity.
Qed.

Lemma round_aux_shift q e l :
  2 ^ 53 <= q < 2 ^ 54 -> -1074 <= e ->
  binary_round_aux PyFloat.prec PyFloat.emax false q e l =
  binary_round_aux PyFloat.prec PyFloat.emax false (q / 2) (e + 1) (PyFloat.after_shift q l).
Proof.
  intros Hq He. unfold binary_round_aux.
  rewrite (shr_fexp_one q) by (apply fexp64_carry; lia).
  assert (Hhalf : 0 <= q / 2 < 2 ^ 53).
  { split; [ apply Z.div_pos; lia | ].
    apply Z.div_lt_upper_bound; [ lia | ]. change (2 * 2 ^ 53) with (2 ^ 54). lia. }
  rewrite (shr_fexp_keep (q / 2)) by (apply fexp64_small; lia).
  rewrite shr_m_record_of_loc, loc_of_record_of_loc.
  rewrite shr_1_m by lia. reflexivity.
Qed.

(** Without a shift, the quotient is rounded up only when the remainder is
    at least half the divisor. *)
Lemma division_round_up q t rem :
  0 <= rem ->
  round_nearest_even q (new_location t rem) <> q ->
  rem <> 0 /\ t <= 2 * rem.
Proof.
  intros Hrem. unfold new_location, new_location_even, new_location_odd.
  destruct (Z.even t); destruct (Z.eqb_spec rem 0) as [H0 | H0];
    try (unfold round_nearest_even; congruence).
  - destruct (Z.compare_spec (2 * rem) t); unfold round_nearest_even;
      try congruence; intros _; lia.
  - destruct (Z.compare_spec (2 * rem + 1) t); unfold round_nearest_even;
      try congruence; intros _; lia.
Qed.


(** The division of [a] by [t] when [a <= 100 t]: the dividend is scaled by
    [2^s] with [s >= 46], and the quotient has at most 54 digits. *)
Lemma div_core_ints (a t : positive) :
  Zpos a <= 100 * Zpos t ->
  exists s q rem,
    SFdiv_core_binary PyFloat.prec PyFloat.emax (Zpos a) 0 (Zpos t) 0 =
      (q, - s, new_location (Zpos t) rem) /\
    46 <= s <= 1074 /\
    Zpos a * 2 ^ s = Zpos t * q + rem /\
    0 <= rem < Zpos t /\
    0 <= q < 2 ^ 54.
Proof.
  intros Hat. unfold SFdiv_core_binary.
  pose proof (Zdigits2_bounds (Zpos a) ltac:(lia)) as [Ha_lo Ha_hi].
  pose proof (Zdigits2_bounds (Zpos t) ltac:(lia)) as [Ht_lo Ht_hi].
  pose proof (Zdigits2_pos (Zpos a) ltac:(lia)) as Hd1.
  pose proof (Zdigits2_pos (Zpos t) ltac:(lia)) as Hd2.
  set (d1 := Zdigits2 (Zpos a)) in *. set (d2 := Zdigits2 (Zpos t)) in *.
  assert (Hd : d1 <= d2 + 7).
  { destruct (Z_le_gt_dec d1 (d2 + 7)) as [ | Hgt]; [ assumption | exfalso ].
    assert (2 ^ (d2 + 7) <= 2 ^ (d1 - 1)) by (apply Z.pow_le_mono_r; lia).
    rewrite Z.pow_add_r in H by lia. change (2 ^ 7) with 128 in H. lia. }
  rewrite fexp64_eq.
  set (s := 0 - 0 - Z.min (Z.max (d1 + 0 - (d2 + 0) - 53) (-1074)) (0 - 0)).
  assert (Hs : 46 <= s <= 1074) by (unfold s; lia).
  assert (Hs' : s <= 53 + d2 - d1) by (unfold s; lia).
  replace (Z.min (Z.max (d1 + 0 - (d2 + 0) - 53) (-1074)) (0 - 0)) with (- s)
    by (unfold s; lia).
  destruct s as [ | ps | ps] eqn:Hps; try lia. rewrite <- Hps in *.
  rewrite Z.shiftl_mul_pow2 by lia.
  pose proof (Z_div_mod (Zpos a * 2 ^ s) (Zpos t) ltac:(lia)) as Hdm.
  destruct (Z.div_eucl (Zpos a * 2 ^ s) (Zpos t)) as [q rem].
  destruct Hdm as [Heq Hrem].
  exists s, q, rem. split; [ reflexivity | ]. split; [ lia | ]. split; [ exact Heq | ].
  split; [ exact Hrem | ].
  assert (Hpow : 0 < 2 ^ s) by (apply Z.pow_pos_nonneg; lia).
  split; [ nia | ].
  assert (Hbound : Zpos a * 2 ^ s < 2 ^ 54 * Zpos t).
  { assert (Zpos a * 2 ^ s < 2 ^ d1 * 2 ^ s) by nia.
    rewrite <- Z.pow_add_r in H by lia.
    assert (2 ^ (d1 + s) <= 2 ^ (54 + (d2 - 1))) by (apply Z.pow_le_mono_r; lia).
    rewrite (Z.pow_add_r 2 54 (d2 - 1)) in H0 by lia.
    assert (2 ^ 54 * 2 ^ (d2 - 1) <= 2 ^ 54 * Zpos t)
      by (apply Z.mul_le_mono_nonneg_l; lia).
    lia. }
  apply Z.nle_gt. intros Hq.
  assert (2 ^ 54 * Zpos t <= q * Zpos t) by (apply Z.mul_le_mono_nonneg_r; lia).
  lia.
Qed.


(** [int(f)] for a positive float below one unit of [2^0] per digit: the
    significand scaled to [2^-s], divided by [2^s]. *)
Lemma to_int_scaled (m : positive) (e s : Z) :
  e < 0 -> 0 <= e + s ->
  PyFloat.to_int (S754_finite false m e) = inl (Zpos m * 2 ^ (e + s) / 2 ^ s).
Proof.
  intros He Hs. unfold PyFloat.to_int.
  destruct (0 <=? e) eqn:H0; [ apply Z.leb_le in H0; lia | ].
  rewrite Z.shiftr_div_pow2 by lia. f_equal.
  assert (Hp : 2 ^ s = 2 ^ (- e) * 2 ^ (e + s))
    by (rewrite <- Z.pow_add_r by lia; f_equal; lia).
  rewrite Hp.
  rewrite Z.div_mul_cancel_r; [ reflexivity | | ];
    apply Z.pow_nonzero; lia.
Qed.

(** The quotient of two positive integers with [a <= 100 t], rounded to
    binary64 and truncated: [val / 2^s], where [val] is the scaled quotient
    [q = a * 2^s / t] or one of its neighbours. *)
Lemma truediv_round (a t : positive) :
  Zpos a <= 100 * Zpos t ->
  exists s val f,
    46 <= s /\
    SFdiv PyFloat.prec PyFloat.emax (S754_finite false a 0) (S754_finite false t 0) = f /\
    (f = S754_zero false \/ exists m e, f = S754_finite false m e) /\
    PyFloat.to_int f = inl (val / 2 ^ s) /\
    (val = Zpos a * 2 ^ s / Zpos t \/
     (val = Zpos a * 2 ^ s / Zpos t - 1 /\ Z.odd (Zpos a * 2 ^ s / Zpos t) = true) \/
     (val = Zpos a * 2 ^ s / Zpos t + 1 /\
      ((Zpos a * 2 ^ s / Zpos t < 2 ^ 53 /\
        (Zpos a * 2 ^ s) mod Zpos t <> 0 /\
        Zpos t <= 2 * ((Zpos a * 2 ^ s) mod Zpos t))
       \/ (2 ^ 53 <= Zpos a * 2 ^ s / Zpos t /\
           Z.odd (Zpos a * 2 ^ s / Zpos t) = true)))).
Proof.
  intros Hat.
  destruct (div_core_ints a t Hat) as [s [q [rem [Hcore [Hs [Heq [Hrem Hq]]]]]]].
  assert (Hdiv : Zpos a * 2 ^ s / Zpos t = q)
    by (symmetry; apply (Z.div_unique_pos _ _ _ rem); lia).
  assert (Hmod : (Zpos a * 2 ^ s) mod Zpos t = rem)
    by (symmetry; apply (Z.mod_unique_pos _ _ q); lia).
  exists s. rewrite Hdiv, Hmod.
  unfold SFdiv. rewrite Hcore. cbn [xorb].
  destruct (Z_lt_le_dec q (2 ^ 53)) as [Hsmall | Hbig].
  - pose proof (round_nearest_even_bounds q (new_location (Zpos t) rem)) as Hb.
    destruct (round_aux_small q (- s) (new_location (Zpos t) rem) ltac:(lia) ltac:(lia))
      as [[Hz Hf] | [m2 [e2 [Hf [He2 Hval]]]]].
    + exists 0, (S754_zero false). split; [ lia | ]. split; [ exact Hf | ].
      split; [ now left | ]. split; [ now rewrite Z.div_0_l by (apply Z.pow_nonzero; lia) | ].
      left. lia.
    + exists (round_nearest_even q (new_location (Zpos t) rem)), (S754_finite false m2 e2).
      split; [ lia | ]. split; [ exact Hf | ]. split; [ right; eauto | ].
      split.
      * rewrite <- Hval. replace (e2 - - s) with (e2 + s) by lia.
        apply to_int_scaled; lia.
      * destruct (Z.eq_dec (round_nearest_even q (new_location (Zpos t) rem)) q)
          as [Hsame | Hup]; [ now left | ].
        right. right. split; [ lia | ]. left. split; [ exact Hsmall | ].
        apply (division_round_up q); [ lia | exact Hup ].
  - rewrite round_aux_shift by lia.
    assert (Hhalf : 2 ^ 52 <= q / 2 < 2 ^ 53).
    { split.
      - apply Z.div_le_lower_bound; [ lia | ]. change (2 * 2 ^ 52) with (2 ^ 53). lia.
      - apply Z.div_lt_upper_bound; [ lia | ]. change (2 * 2 ^ 53) with (2 ^ 54). lia. }
    pose proof (round_nearest_even_bounds (q / 2) (PyFloat.after_shift q (new_location (Zpos t) rem)))
      as Hb.
    pose proof (Z.div_mod q 2 ltac:(lia)) as Hq2.
    pose proof (Z.mod_pos_bound q 2 ltac:(lia)) as Hq2b.
    destruct (round_aux_small (q / 2) (- s + 1) (PyFloat.after_shift q (new_location (Zpos t) rem))
                ltac:(lia) ltac:(lia))
      as [[Hz Hf] | [m2 [e2 [Hf [He2 Hval]]]]]; [ lia | ].
    exists (2 * round_nearest_even (q / 2) (PyFloat.after_shift q (new_location (Zpos t) rem))),
      (S754_finite false m2 e2).
    split; [ lia | ]. split; [ exact Hf | ]. split; [ right; eauto | ].
    split.
    + rewrite <- Hval.
      replace (2 * (Zpos m2 * 2 ^ (e2 - (- s + 1))))
        with (Zpos m2 * 2 ^ (e2 + s)).
      * apply to_int_scaled; lia.
      * replace (e2 + s) with (Z.succ (e2 - (- s + 1))) by lia.
        rewrite Z.pow_succ_r by lia. lia.
    + destruct (Z.eq_dec (round_nearest_even (q / 2)
                            (PyFloat.after_shift q (new_location (Zpos t) rem))) (q / 2))
        as [Hsame | Hup].
      * rewrite Hsame. destruct (Z.eq_dec (q mod 2) 0) as [Heven | Hodd].
        -- left. lia.
        -- right. left. pose proof (Zmod_odd q) as Hpar.
           destruct (Z.odd q); [ split; [ lia | reflexivity ] | lia ].
      * right. right.
        assert (Hodd : Z.odd q = true) by (apply (shift_round_up q _ ltac:(lia) Hup)).
        split; [ | right; split; [ exact Hbig | exact Hodd ] ].
        pose proof (Zmod_odd q) as Hpar. rewrite Hodd in Hpar. lia.
Qed.


End Rounding.

(** The integer side: dividing the scaled quotient, or a neighbour of it the
    rounding may pick, by the scale gives back [a / t], up to one unit for
    divisors of 47 bits and more. *)
Lemma scaled_quotient_floor (a t s val : Z) :
  0 < a -> 0 < t -> a <= 100 * t -> 46 <= s ->
  (val = a * 2 ^ s / t \/
   (val = a * 2 ^ s / t - 1 /\ Z.odd (a * 2 ^ s / t) = true) \/
   (val = a * 2 ^ s / t + 1 /\
    ((a * 2 ^ s / t < 2 ^ 53 /\ (a * 2 ^ s) mod t <> 0 /\ t <= 2 * ((a * 2 ^ s) mod t))
     \/ (2 ^ 53 <= a * 2 ^ s / t /\ Z.odd (a * 2 ^ s / t) = true)))) ->
  a / t <= val / 2 ^ s <= a / t + 1 /\
  val / 2 ^ s <= 100 /\
  (t < 2 ^ 47 -> val / 2 ^ s = a / t).
Proof.
  intros Ha Ht Hat Hs Hval.
  assert (HP : 2 ^ 46 <= 2 ^ s) by (apply Z.pow_le_mono_r; lia).
  assert (HP47 : 47 <= s -> 2 ^ 47 <= 2 ^ s) by (intros; apply Z.pow_le_mono_r; lia).
  assert (Hhalf : 2 ^ s = 2 * 2 ^ (s - 1)).
  { replace s with (Z.succ (s - 1)) at 1 by lia. apply Z.pow_succ_r. lia. }
  assert (HP46 : s = 46 -> 2 ^ s = 2 ^ 46) by (intros ->; reflexivity).
  set (P := 2 ^ s) in *. set (P' := 2 ^ (s - 1)) in *.
  change (2 ^ 46) with 70368744177664 in *.
  change (2 ^ 47) with 140737488355328 in *.
  change (2 ^ 53) with 9007199254740992 in *.
  assert (HPpos : 0 < P) by lia.
  pose proof (Z.div_mod (a * P) t ltac:(lia)) as Hq.
  pose proof (Z.mod_pos_bound (a * P) t Ht) as Hrem.
  pose proof (Z.div_mod a t ltac:(lia)) as Hk.
  pose proof (Z.mod_pos_bound a t Ht) as Hr0.
  assert (Hqk : a * P / t / P = a / t).
  { rewrite Z.div_div by lia. apply Z.div_mul_cancel_r; lia. }
  pose proof (Z.div_mod (a * P / t) P ltac:(lia)) as Hm.
  pose proof (Z.mod_pos_bound (a * P / t) P HPpos) as Hmb.
  rewrite Hqk in Hm.
  set (q := a * P / t) in *. set (rem := (a * P) mod t) in *.
  set (k := a / t) in *. set (r0 := a mod t) in *. set (m := q mod P) in *.
  assert (Hk100 : k <= 100) by nia.
  assert (Hk0 : 0 <= k) by nia.
  assert (Hparity : Z.odd q = true -> 1 <= m).
  { intros Hodd. destruct (Z.eq_dec m 0) as [Hm0 | ]; [ exfalso | lia ].
    pose proof (Zmod_odd q) as Hpar. rewrite Hodd in Hpar.
    assert (Hq2 : q = P' * k * 2) by lia.
    rewrite Hq2, Z.mod_mul in Hpar by lia. discriminate. }
  assert (Hq100 : k = 100 -> q = 100 * P /\ rem = 0).
  { intros Hk'. assert (Ha' : a = 100 * t) by nia.
    assert (Hq' : q = 100 * P).
    { unfold q. rewrite Ha'. replace (100 * t * P) with (100 * P * t) by lia.
      apply Z.div_mul. lia. }
    split; [ exact Hq' | ]. nia. }
  destruct Hval as [-> | [[-> Hodd] | [-> Hup]]].
  - rewrite Hqk. repeat split; lia.
  - assert (Hv : (q - 1) / P = k).
    { symmetry. apply (Z.div_unique_pos _ _ _ (m - 1)); [ | lia ].
      specialize (Hparity Hodd). lia. }
    rewrite Hv. repeat split; lia.
  - destruct (Z_lt_le_dec (m + 1) P) as [Hroom | Hfull].
    + assert (Hv : (q + 1) / P = k).
      { symmetry. apply (Z.div_unique_pos _ _ _ (m + 1)); lia. }
      rewrite Hv. repeat split; lia.
    + assert (Hv : (q + 1) / P = k + 1).
      { symmetry. apply (Z.div_unique_pos _ _ _ 0); lia. }
      rewrite Hv.
      assert (Hnot100 : k <> 100).
      { intros Hk'. destruct (Hq100 Hk') as [Hq' Hrem0].
        destruct Hup as [[_ [Hne _]] | [_ Hodd]]; [ contradiction | ].
        pose proof (Zmod_odd q) as Hpar. rewrite Hodd in Hpar.
        assert (Hq2 : q = 100 * P' * 2) by lia.
        rewrite Hq2, Z.mod_mul in Hpar by lia. discriminate. }
      split; [ lia | ]. split; [ lia | ].
      intros Hbound. exfalso.
      assert (Hgap : P * (t - r0) = t - rem) by nia.
      assert (Hge : P <= t - rem) by nia.
      destruct Hup as [[_ [_ Hhalfway]] | [Hbig _]].
      * lia.
      * assert (Hq100' : q <= 100 * P) by nia.
        destruct (Z.eq_dec s 46) as [Hs46 | Hs46].
        -- specialize (HP46 Hs46). lia.
        -- specialize (HP47 ltac:(lia)). lia.
Qed.

(** C6, as stated, fails for totals of 47 bits and more: the quotient is a
    binary64 float, and [99.999999999999999] rounds to [100.0] before
    [int] truncates it. *)
Lemma pct_rounds_up_on_huge_totals :
  0 <= 99999999999999999 <= 100000000000000000
  /\ pct (Demo.window 99999999999999999 100000000000000000) = inl 100
  /\ 100 * 99999999999999999 / 100000000000000000 = 99.
Proof. split; [ lia | ]. split; vm_compute; reflexivity. Qed.

(** C6, amended: for all integers with
    [0 <= chars_returned <= chars_total], computing the displayed percentage
    raises no error, division by zero included; the value lies in
    [[0, 100]], is 0 when [chars_total = 0], is
    [floor(100 * chars_returned / chars_total)] or that plus one, and is
    exactly that floor whenever [chars_total < 2^47]. *)
Theorem pct_in_range (metadata : TruncationMetadata) :
  0 <= chars_returned metadata <= chars_total metadata ->
  exists p,
    pct metadata = inl p /\
    0 <= p <= 100 /\
    (chars_total metadata = 0 -> p = 0) /\
    100 * chars_returned metadata / chars_total metadata <= p
      <= 100 * chars_returned metadata / chars_total metadata + 1 /\
    (chars_total metadata < 2 ^ 47 ->
       p = 100 * chars_returned metadata / chars_total metadata).
Proof.
  intros Hr. unfold pct.
  destruct (0 <? chars_total metadata) eqn:Ht.
  - apply Z.ltb_lt in Ht. unfold PyFloat.int_truediv.
    destruct (chars_total metadata =? 0) eqn:H0; [ apply Z.eqb_eq in H0; lia | ].
    destruct (chars_total metadata) as [ | t | t ] eqn:Htotal; try lia.
    destruct (100 * chars_returned metadata) as [ | a | a ] eqn:Ha; try lia.
    + exists 0. simpl. repeat split; try lia; try discriminate.
    + unfold PyFloat.of_int.
      destruct (truediv_round a t ltac:(lia)) as [s [val [f [Hs [Hf [Hshape [Hint Hval]]]]]]].
      rewrite Hf.
      destruct (scaled_quotient_floor (Zpos a) (Zpos t) s val
                  ltac:(lia) ltac:(lia) ltac:(lia) Hs Hval) as [Hnear [Hmax Hexact]].
      assert (0 <= Zpos a / Zpos t) by (apply Z.div_pos; lia).
      exists (val / 2 ^ s).
      split.
      { destruct Hshape as [-> | [m [e ->]]]; exact Hint. }
      repeat split; try lia; try discriminate.
  - apply Z.ltb_ge in Ht. exists 0.
    assert (chars_total metadata = 0) as -> by lia.
    assert (chars_returned metadata = 0) as -> by lia.
    change (100 * 0 / 0) with 0.
    repeat split; try lia; try discriminate.
Qed.

Lemma pct_in_range_witness :
  pct (Demo.window 49800 125000) = inl 39 /\ pct (Demo.window 0 0) = inl 0.
Proof.
  split.
  - destruct (pct_in_range (Demo.window 49800 125000)) as [p [Hp [_ [_ [_ Hfloor]]]]].
    + simpl. lia.
    + rewrite Hp. f_equal. apply Hfloor. reflexivity.
  - destruct (pct_in_range (Demo.window 0 0)) as [p [Hp [_ [Hzero _]]]].
    + simpl. lia.
    + rewrite Hp. f_equal. apply Hzero. reflexivity.
Defined.

(** * Further properties *)


(** ** The community URL and the URLs it accepts *)

Lemma rstrip_decompose (c : ascii) (s : string) :
  exists n, s = Py.rstrip c s ++ repeat_char c n.
Proof.
  induction s as [ | a s [n IH]]; [ now exists 0%nat | ].
  simpl. destruct (Py.rstrip c s) as [ | b r] eqn:Hr.
  - simpl in IH. destruct (Ascii.eqb a c) eqn:Hac.
    + apply Ascii.eqb_eq in Hac. subst a. exists (S n). simpl. now rewrite <- IH.
    + exists n. simpl. now rewrite <- IH.
  - exists n. simpl. f_equal. exact IH.
Qed.

Lemma rstrip_no_trailing (c : ascii) (s : string) :
  forall p, Py.rstrip c s <> p ++ String c "".
Proof.
  induction s as [ | a s IH]; intros p; simpl.
  - now destruct p.
  - destruct (Py.rstrip c s) as [ | b r] eqn:Hr.
    + destruct (Ascii.eqb a c) eqn:Hac.
      * now destruct p.
      * apply Ascii.eqb_neq in Hac.
        destruct p as [ | x [ | y p]]; simpl; intros H; inversion H; congruence.
    + destruct p as [ | x p]; simpl; intros H; inversion H.
      now apply (IH p).
Qed.

(** X1: the community URL a client keeps is the configured one without its
    trailing slashes: the configured URL is the kept one followed by slashes
    only, and the kept one does not end with a slash. *)
Theorem community_has_no_trailing_slash (base key : string) (ps : Z) :
  (exists n, base = community (new_client base key ps) ++ repeat_char "/" n)
  /\ (forall p, community (new_client base key ps) <> p ++ "/").
Proof.
  split.
  - apply rstrip_decompose.
  - apply rstrip_no_trailing.
Qed.

Lemma prefix_iff (p : string) :
  forall s, String.prefix p s = true <-> exists rest, s = p ++ rest.
Proof.
  induction p as [ | a p IH]; intros s.
  - split; [ intros _; now exists s | intros _; now destruct s ].
  - destruct s as [ | b s]; simpl.
    + split; [ discriminate | intros [rest [=]] ].
    + destruct (ascii_dec a b) as [ -> | Hne ].
      * rewrite IH. split; intros [rest H]; exists rest; [ now rewrite H | now injection H ].
      * split; [ discriminate | intros [rest [= H _]]; congruence ].
Qed.

Lemma append_inj_l (p a b : string) : p ++ a = p ++ b -> a = b.
Proof. induction p as [ | c p IH]; simpl; [ easy | intros [= H]; auto ]. Qed.

(** X2: [_validate_community_url] accepts exactly the community URL itself
    and the URLs made of it, a slash or a question mark, and anything
    after. *)
Theorem accepted_urls (self : IglooClient) (url : string) :
  _validate_community_url self url = None <->
  url = community self
  \/ (exists rest, url = community self ++ "/" ++ rest)
  \/ (exists rest, url = community self ++ "?" ++ rest).
Proof.
  unfold _validate_community_url, Py.startswith.
  assert (Hslash : String.prefix (community self ++ "/") url = true <->
                   exists rest, url = community self ++ "/" ++ rest).
  { rewrite prefix_iff. split; intros [rest H]; exists rest;
      [ now rewrite <- append_assoc | now rewrite append_assoc ]. }
  assert (Hquery : String.prefix (community self ++ "?") url = true <->
                   exists rest, url = community self ++ "?" ++ rest).
  { rewrite prefix_iff. split; intros [rest H]; exists rest;
      [ now rewrite <- append_assoc | now rewrite append_assoc ]. }
  destruct (String.eqb_spec url (community self)) as [Heq | Hne].
  - simpl. split; auto.
  - destruct (String.prefix (community self ++ "/") url).
    + simpl. split; [ intros _; right; left; now apply Hslash | reflexivity ].
    + destruct (String.prefix (community self ++ "?") url).
      * simpl. split; [ intros _; right; right; now apply Hquery | reflexivity ].
      * simpl. split; [ discriminate | ].
        intros [H | [H | H]]; [ contradiction | | ].
        -- apply Hslash in H. discriminate.
        -- apply Hquery in H. discriminate.
Qed.

(** X3: a URL that continues the community URL with any character other
    than a slash or a question mark, such as a look-alike host name, makes
    [fetch_page] raise [ValueError] before any request. *)
Theorem lookalike_url_is_rejected {Rec : Type}
    (transport : http_request -> transport_result Rec) (self : IglooClient)
    (c : ascii) (rest : string) :
  c <> "/"%char -> c <> "?"%char ->
  exists msg, forall log,
    fetch_page transport self (community self ++ String c rest) log =
    (inr (ValueError msg), log).
Proof.
  intros Hslash Hquery.
  set (url := community self ++ String c rest).
  assert (Hne : String.eqb url (community self) = false).
  { apply String.eqb_neq. intros H. apply (f_equal String.length) in H.
    unfold url in H. rewrite length_append in H. simpl in H. lia. }
  assert (Hother : forall d : ascii, c <> d ->
             String.prefix (community self ++ String d "") url = false).
  { intros d Hd. destruct (String.prefix _ url) eqn:Hp; [ exfalso | reflexivity ].
    apply prefix_iff in Hp as [r Hr]. unfold url in Hr.
    rewrite append_assoc in Hr. apply append_inj_l in Hr.
    simpl in Hr. congruence. }
  unfold fetch_page, _validate_community_url, Py.startswith. fold url.
  rewrite Hne, (Hother "/"%char Hslash), (Hother "?"%char Hquery).
  eexists. intros log. reflexivity.
Qed.

Lemma lookalike_url_is_rejected_witness :
  exists msg,
    fetch_page Demo.site Demo.client "https://igloo.example.com.evil.org/wiki/a" [] =
    (inr (ValueError msg), []).
Proof.
  destruct (lookalike_url_is_rejected Demo.site Demo.client "."%char "evil.org/wiki/a")
    as [msg H]; [ discriminate | discriminate | ].
  exists msg. exact (H []).
Defined.

Lemma accepted_urls_witness :
  _validate_community_url Demo.client "https://igloo.example.com/wiki/a" = None
  /\ ("https://igloo.example.com?page=2" = community Demo.client
      \/ (exists rest, "https://igloo.example.com?page=2" = community Demo.client ++ "/" ++ rest)
      \/ (exists rest, "https://igloo.example.com?page=2" = community Demo.client ++ "?" ++ rest)).
Proof.
  split.
  - apply (accepted_urls Demo.client "https://igloo.example.com/wiki/a").
    right. left. exists "wiki/a". reflexivity.
  - apply (accepted_urls Demo.client "https://igloo.example.com?page=2"). reflexivity.
Defined.

(** ** One request per call *)

(** X4: [_request] with one of the four methods sends exactly one request,
    to the community URL followed by the endpoint, with the method and the
    parameters it was given; it returns the response exactly when the
    transport answered with a 2xx status. *)
Theorem request_sends_once {Rec : Type}
    (transport : http_request -> transport_result Rec) (self : IglooClient)
    (method endpoint : string) (params : list (string * string))
    (log : list http_request) :
  valid_method method = true ->
  exists r,
    snd (_request transport self method endpoint params log) = (log ++ [r])%list /\
    req_method r = method /\
    req_url r = community self ++ endpoint /\
    req_params r = params /\
    forall resp,
      fst (_request transport self method endpoint params log) = inl resp <->
      transport r = Responded resp /\ is_success resp = true.
Proof.
  intros Hm. exists (api_request self method endpoint params).
  rewrite _request_run by assumption. cbn [fst snd].
  split; [ reflexivity | ]. split; [ reflexivity | ].
  split; [ reflexivity | ]. split; [ reflexivity | ].
  intros resp. unfold request_outcome.
  destruct (transport (api_request self method endpoint params)) as [resp' | msg].
  - destruct (is_success resp') eqn:Hs.
    + split; [ intros [= ->]; now split | intros [[= ->] _]; reflexivity ].
    + split; [ discriminate | intros [[= ->] Hs']; congruence ].
  - split; [ discriminate | intros [[=] _] ].
Qed.

Lemma request_sends_once_witness :
  exists r,
    snd (_request (Demo.paged_server (seq 0 3)) Demo.client "GET" "/x" [] []) = [r]
    /\ req_url r = "https://igloo.example.com/x".
Proof.
  destruct (request_sends_once (Demo.paged_server (seq 0 3)) Demo.client "GET" "/x" [] [])
    as [r [Hlog [_ [Hurl _]]]]; [ reflexivity | ].
  exists r. split; [ exact Hlog | exact Hurl ].
Defined.

(** X5: for a URL the validation accepts, [fetch_page] sends exactly one
    request, a GET of that very URL asking for HTML; it returns the text of
    the response when the status is 2xx, and raises the status error or the
    transport error otherwise. *)
Theorem fetch_page_sends_once {Rec : Type}
    (transport : http_request -> transport_result Rec) (self : IglooClient)
    (url : string) (log : list http_request) :
  _validate_community_url self url = None ->
  fetch_page transport self url log =
  (match transport (page_request url) with
   | Responded resp =>
       if is_success resp then inl (resp_text resp)
       else inr (HTTPStatusError (status_code resp))
   | Failed msg => inr (TransportError msg)
   end,
   (log ++ [page_request url])%list)
  /\ req_method (page_request url) = "GET"
  /\ req_url (page_request url) = url
  /\ Py.dict_get "Accept" (req_headers (page_request url)) = Some "text/html".
Proof.
  intros Hv. split; [ | now repeat split ].
  unfold fetch_page. rewrite Hv.
  unfold bind, client_request, raise_for_status.
  destruct (transport (page_request url)) as [resp | msg]; [ | reflexivity ].
  now destruct (is_success resp).
Qed.

Lemma fetch_page_sends_once_witness :
  fetch_page Demo.site Demo.client "https://igloo.example.com/wiki/b" [] =
  (inr (HTTPStatusError 404), [page_request "https://igloo.example.com/wiki/b"]).
Proof.
  apply (fetch_page_sends_once Demo.site Demo.client "https://igloo.example.com/wiki/b" []).
  reflexivity.
Defined.

(** X6: a multi-page fetch requests exactly the URLs the validation accepts,
    once each and in the order of the input; the others cost no request. *)
Theorem fetch_pages_requests {Rec : Type}
    (transport : http_request -> transport_result Rec) (self : IglooClient)
    (urls : list string) (log : list http_request) :
  snd (fetch_pages transport self urls log) =
  (log ++ map page_request (filter (url_accepted self) urls))%list.
Proof.
  unfold fetch_pages, gather_return_exceptions.
  rewrite run_all_fetch_page. simpl. f_equal.
  induction urls as [ | u us IH]; simpl; [ reflexivity | ].
  rewrite IH. unfold url_accepted at 2. unfold fetch_page at 1.
  destruct (_validate_community_url self u) as [e | ]; simpl; [ reflexivity | ].
  unfold bind, client_request, raise_for_status.
  destruct (transport (page_request u)) as [resp | msg]; [ | reflexivity ].
  now destruct (is_success resp).
Qed.

(** ** What a search requests *)

Section SearchRequests.

Context {Rec : Type}.
Variable transport : http_request -> transport_result Rec.

(** The requests of [search_pages] are those of [issued_offsets], in
    order. *)
Lemma search_pages_log self a params (j : search_json Rec) log :
  snd (search_pages transport self a params j log) =
  (log ++ map (offset_request self params) (issued_offsets self a j))%list.
Proof.
  unfold search_pages, issued_offsets. cbv zeta.
  destruct (limit_is (limit a) (fun l => l =? 0)).
  { simpl. now rewrite app_nil_r. }
  destruct (limit_is (limit a) (fun l => l <=? Py.len (first_results j))).
  { simpl. now rewrite app_nil_r. }
  destruct (fanout_offsets _ _ _ _) as [offsets | e].
  2:{ simpl. now rewrite app_nil_r. }
  unfold bind at 1. rewrite fanout_run.
  destruct (collect _) as [resps | e]; [ | reflexivity ].
  now destruct (fst (extend_results (first_results j) resps [])).
Qed.

(** A successful [search_pages] returns a list cut to the limit. *)
Lemma search_pages_value self a params (j : search_json Rec) log results :
  fst (search_pages transport self a params j log) = inl results ->
  exists all, results = up_to_limit (limit a) all.
Proof.
  unfold search_pages. cbv zeta.
  destruct (limit_is (limit a) (fun l => l =? 0)) eqn:Hz.
  { destruct (limit a) as [l | ]; [ | discriminate ].
    simpl in Hz. apply Z.eqb_eq in Hz. subst l.
    simpl. intros [= <-]. now exists []. }
  destruct (limit_is (limit a) (fun l => l <=? Py.len (first_results j))).
  { simpl. intros [= <-]. eauto. }
  destruct (fanout_offsets _ _ _ _) as [offsets | e]; [ | discriminate ].
  unfold bind at 1. rewrite fanout_run.
  destruct (collect _) as [resps | e]; [ | discriminate ].
  destruct (fst (extend_results (first_results j) resps [])) as [all | e];
    [ | discriminate ].
  simpl. intros [= <-]. eauto.
Qed.

End SearchRequests.

(** X7: the validation of a search fails in one case only, a custom date
    range without both bounds; every other call passes it and sends the
    request of the first page before anything else. *)
Theorem search_validation_is_exact {Rec : Type}
    (transport : http_request -> transport_result Rec) (self : IglooClient)
    (a : SearchArgs) (log : list http_request) :
  ((exists e, search_params self a = inr e) <->
   updated_date_type a = Some CUSTOM_RANGE /\
   (updated_date_range_from a = None \/ updated_date_range_to a = None))
  /\
  (forall params,
     search_params self a = inl params ->
     exists more,
       snd (search transport self a log) =
       (log ++ first_request self params :: more)%list).
Proof.
  split.
  - unfold search_params.
    destruct (updated_date_type a) as [[ | | | | | ] | ]; cbn [UpdatedDateType_eqb].
    1-5, 7: (split; [ intros [e H]; discriminate | intros [H _]; discriminate ]).
    destruct (updated_date_range_from a), (updated_date_range_to a).
    + split; [ intros [e H]; discriminate | intros [_ [H | H]]; discriminate ].
    + split; [ auto | eexists; reflexivity ].
    + split; [ auto | eexists; reflexivity ].
    + split; [ auto | eexists; reflexivity ].
  - intros params Hp. rewrite (search_run transport self a params log Hp).
    destruct (request_outcome transport (first_request self params)) as [resp | e];
      [ | now exists [] ].
    destruct (resp_json resp) as [j | ]; [ | now exists [] ].
    rewrite search_pages_log. rewrite <- app_assoc. eexists. reflexivity.
Qed.

Lemma search_validation_is_exact_witness :
  (exists e, search_params Demo.client Demo.open_range_call = inr e)
  /\ exists more,
       snd (search (Demo.paged_server (seq 0 3)) Demo.client (Demo.call None) []) =
       first_request Demo.client Demo.params :: more.
Proof.
  destruct (search_validation_is_exact (Demo.paged_server (seq 0 3)) Demo.client
              Demo.open_range_call []) as [[_ Hfail] _].
  destruct (search_validation_is_exact (Demo.paged_server (seq 0 3)) Demo.client
              (Demo.call None) []) as [_ Hfirst].
  split.
  - apply Hfail. split; [ reflexivity | right; reflexivity ].
  - apply (Hfirst Demo.params). reflexivity.
Defined.

(** X8: a search never returns more records than its limit, whatever the
    server answers. *)
Theorem search_respects_limit {Rec : Type}
    (transport : http_request -> transport_result Rec) (self : IglooClient)
    (a : SearchArgs) (log : list http_request) (l : Z) (results : list Rec) :
  limit a = Some l -> 0 <= l ->
  fst (search transport self a log) = inl results ->
  Py.len results <= l.
Proof.
  intros Hl Hpos Hres.
  destruct (search_params self a) as [params | e] eqn:Hp.
  2:{ unfold search in Hres. rewrite Hp in Hres. discriminate. }
  rewrite (search_run transport self a params log Hp) in Hres.
  destruct (request_outcome transport (first_request self params)) as [resp | e];
    [ | discriminate ].
  destruct (resp_json resp) as [j | ]; [ | discriminate ].
  apply search_pages_value in Hres as [all ->].
  rewrite Hl. unfold up_to_limit, Py.slice_to, Py.len.
  destruct (0 <=? l) eqn:H0; [ | apply Z.leb_gt in H0; lia ].
  pose proof (firstn_le_length (Z.to_nat l) all). lia.
Qed.

Lemma search_respects_limit_witness :
  exists results,
    fst (search (Demo.paged_server (seq 0 120)) Demo.client (Demo.call (Some 60)) []) =
      inl results
    /\ Py.len results <= 60.
Proof.
  exists (seq 0 60). split; [ reflexivity | ].
  apply (search_respects_limit (Demo.paged_server (seq 0 120)) Demo.client
           (Demo.call (Some 60)) [] 60 (seq 0 60)); [ reflexivity | lia | reflexivity ].
Defined.

(** X9: when the request of the first page fails, or its body is not JSON,
    the search raises that very error and has sent this one request only, no
    fan-out being attempted: the error of the transport when no answer
    comes, the status error with the status of the answer when it is not
    2xx, the decoding error when the body of a 2xx answer is not JSON. *)
Theorem failed_first_page_stops_search {Rec : Type}
    (transport : http_request -> transport_result Rec) (self : IglooClient)
    (a : SearchArgs) (params : list (string * string)) (log : list http_request) :
  search_params self a = inl params ->
  (forall msg,
     transport (first_request self params) = Failed msg ->
     search transport self a log =
     (inr (TransportError msg), (log ++ [first_request self params])%list))
  /\
  (forall resp,
     transport (first_request self params) = Responded resp ->
     is_success resp = false ->
     search transport self a log =
     (inr (HTTPStatusError (status_code resp)),
      (log ++ [first_request self params])%list))
  /\
  (forall resp,
     transport (first_request self params) = Responded resp ->
     is_success resp = true -> resp_json resp = None ->
     search transport self a log =
     (inr JSONDecodeError, (log ++ [first_request self params])%list)).
Proof.
  intros Hp. rewrite (search_run transport self a params log Hp).
  unfold request_outcome. split; [ | split ].
  - intros msg Ht. now rewrite Ht.
  - intros resp Ht Hs. now rewrite Ht, Hs.
  - intros resp Ht Hs Hj. now rewrite Ht, Hs, Hj.
Qed.

Lemma failed_first_page_stops_search_witness :
  search Demo.site Demo.client (Demo.call None) [] =
    (inr (TransportError "timed out"), [first_request Demo.client Demo.params]).
Proof.
  destruct (failed_first_page_stops_search Demo.site Demo.client (Demo.call None)
              Demo.params []) as [Hfail _]; [ reflexivity | ].
  apply Hfail. reflexivity.
Defined.

(** X10: when the first page already holds as many records as the limit
    asks for, the search returns [results[:limit]] of that page and sends no
    further request. *)
Theorem first_page_satisfies_limit {Rec : Type}
    (transport : http_request -> transport_result Rec) (self : IglooClient)
    (a : SearchArgs) (params : list (string * string)) (log : list http_request)
    (resp : response Rec) (j : search_json Rec) (l : Z) :
  search_params self a = inl params ->
  transport (first_request self params) = Responded resp ->
  is_success resp = true -> resp_json resp = Some j ->
  limit a = Some l -> l <= Py.len (first_results j) ->
  search transport self a log =
  (inl (Py.slice_to (first_results j) l), (log ++ [first_request self params])%list).
Proof.
  intros Hp Ht Hs Hj Hl Hle.
  rewrite (search_run transport self a params log Hp).
  unfold request_outcome. rewrite Ht, Hs, Hj.
  unfold search_pages. rewrite Hl. cbn [limit_is].
  destruct (l =? 0) eqn:Hz.
  - apply Z.eqb_eq in Hz. subst l. reflexivity.
  - apply Z.leb_le in Hle. rewrite Hle. reflexivity.
Qed.

Lemma first_page_satisfies_limit_witness :
  search (Demo.paged_server (seq 0 120)) Demo.client (Demo.call (Some 10)) [] =
  (inl (seq 0 10), [first_request Demo.client Demo.params]).
Proof.
  apply (first_page_satisfies_limit (Demo.paged_server (seq 0 120)) Demo.client
           (Demo.call (Some 10)) Demo.params []
           {| status_code := 200; resp_text := "";
              resp_json := Some (Demo.json_page (seq 0 120)
                                   (first_request Demo.client Demo.params)) |}
           (Demo.json_page (seq 0 120) (first_request Demo.client Demo.params)) 10);
    try reflexivity.
  vm_compute. discriminate.
Defined.

(** ** The parameters of the requests *)

Lemma dict_get_set_same k v d : Py.dict_get k (Py.dict_set k v d) = Some v.
Proof.
  induction d as [ | [k0 v0] d IH]; simpl.
  - now rewrite String.eqb_refl.
  - destruct (String.eqb k0 k) eqn:Hk; simpl.
    + now rewrite String.eqb_refl.
    + now rewrite Hk.
Qed.

Lemma dict_get_set_other k k' v d :
  k' <> k -> Py.dict_get k' (Py.dict_set k v d) = Py.dict_get k' d.
Proof.
  intros Hne. induction d as [ | [k0 v0] d IH]; simpl.
  - apply String.eqb_neq in Hne. rewrite String.eqb_sym. now rewrite Hne.
  - destruct (String.eqb k0 k) eqn:Hk; simpl.
    + apply String.eqb_eq in Hk. subst k0.
      assert (String.eqb k k' = false) as -> by (apply String.eqb_neq; congruence).
      reflexivity.
    + now rewrite IH.
Qed.

Lemma dict_get_singleton_same k v : Py.dict_get k [(k, v)] = Some v.
Proof. simpl. now rewrite String.eqb_refl. Qed.

Lemma dict_get_singleton_other k k' v : k' <> k -> Py.dict_get k' [(k, v)] = None.
Proof.
  intros Hne. simpl.
  assert (String.eqb k k' = false) as -> by (apply String.eqb_neq; congruence).
  reflexivity.
Qed.

Lemma get_set_if_given_same k v d :
  Py.dict_get k (set_if_given k v d) =
  match v with Some x => Some x | None => Py.dict_get k d end.
Proof. destruct v; simpl; [ apply dict_get_set_same | reflexivity ]. Qed.

Lemma get_set_if_given_other k k' v d :
  k' <> k -> Py.dict_get k' (set_if_given k v d) = Py.dict_get k' d.
Proof. intros Hne. destruct v; simpl; [ now apply dict_get_set_other | reflexivity ]. Qed.

Lemma option_same {A} (v : option A) :
  match v with Some x => Some x | None => None end = v.
Proof. now destruct v. Qed.

Ltac dict_lookup :=
  repeat first
    [ rewrite dict_get_set_same
    | rewrite get_set_if_given_same
    | rewrite dict_get_singleton_same
    | (rewrite dict_get_set_other by discriminate)
    | (rewrite get_set_if_given_other by discriminate)
    | (rewrite dict_get_singleton_other by discriminate) ];
  rewrite ?option_same; try reflexivity.

(** The parameters of a search as a chain of assignments. *)
Lemma search_params_staged self a :
  search_params self a =
  let params :=
    Py.dict_set "includeArchived" (Py.str_lower_of_bool (include_archived a))
      (Py.dict_set "includeMicroblog" (Py.str_lower_of_bool (include_microblog a))
         (Py.dict_set "searchAll" (Py.str_lower_of_bool (search_all a))
            (set_if_given "parentHref" (parent_param a)
               (set_if_given "applications" (applications_param a)
                  (set_if_given "query" (query_param a)
                     [("limit", Py.str_of_int (search_page_size self a))]))))) in
  match updated_date_type a with
  | None => inl params
  | Some t =>
      let params := Py.dict_set "updatedDateType" (UpdatedDateType_value t) params in
      if UpdatedDateType_eqb t CUSTOM_RANGE then
        match updated_date_range_from a, updated_date_range_to a with
        | Some d_from, Some d_to =>
            inl (Py.dict_set "updatedTo" (strftime_api d_to)
                   (Py.dict_set "updatedFrom" (strftime_api d_from) params))
        | _, _ => inr (ValueError custom_range_message)
        end
      else inl params
  end.
Proof.
  unfold search_params, query_param, applications_param, parent_param.
  destruct (query a) as [q | ]; [ destruct (String.eqb q "") | ];
    (destruct (applications a) as [[ | app apps] | ]);
    (destruct (parent_href a) as [h | ]; [ destruct (String.eqb h "") | ]);
    reflexivity.
Qed.

Ltac search_params_cases a H :=
  rewrite search_params_staged in H; cbv zeta in H;
  (destruct (updated_date_type a) as [[ | | | | | ] | ]); cbn [UpdatedDateType_eqb] in H;
  try (destruct (updated_date_range_from a) as [d_from | ];
       destruct (updated_date_range_to a) as [d_to | ]);
  try discriminate H; injection H as <-.

Lemma search_params_no_offset self a params :
  search_params self a = inl params -> Py.dict_get "offset" params = None.
Proof. intros H. search_params_cases a H; dict_lookup. Qed.

(** X11: the parameters of the first request, looked up by key: the page
    size under [limit], the three flags in lower case, the query, the parent
    path without trailing slashes and the applications when they are given
    and not empty, the date filter when there is one, both dates exactly for
    a custom range, and never an [offset]. *)
Theorem search_params_lookup (self : IglooClient) (a : SearchArgs)
    (params : list (string * string)) :
  search_params self a = inl params ->
  Py.dict_get "limit" params = Some (Py.str_of_int (search_page_size self a))
  /\ Py.dict_get "searchAll" params = Some (Py.str_lower_of_bool (search_all a))
  /\ Py.dict_get "includeMicroblog" params = Some (Py.str_lower_of_bool (include_microblog a))
  /\ Py.dict_get "includeArchived" params = Some (Py.str_lower_of_bool (include_archived a))
  /\ Py.dict_get "offset" params = None
  /\ Py.dict_get "query" params =
       match query a with
       | Some q => if String.eqb q "" then None else Some q
       | None => None
       end
  /\ Py.dict_get "parentHref" params =
       match parent_href a with
       | Some h => if String.eqb h "" then None else Some (Py.rstrip "/" h)
       | None => None
       end
  /\ Py.dict_get "applications" params =
       match applications a with
       | Some (app :: apps) =>
           Some (Py.join "," (map (fun x => Py.str_of_int (ApplicationType_value x))
                                (app :: apps)))
       | _ => None
       end
  /\ Py.dict_get "updatedDateType" params =
       option_map UpdatedDateType_value (updated_date_type a)
  /\ Py.dict_get "updatedFrom" params =
       match updated_date_type a with
       | Some CUSTOM_RANGE => option_map strftime_api (updated_date_range_from a)
       | _ => None
       end
  /\ Py.dict_get "updatedTo" params =
       match updated_date_type a with
       | Some CUSTOM_RANGE => option_map strftime_api (updated_date_range_to a)
       | _ => None
       end.
Proof.
  intros H.
  change (match query a with
          | Some q => if String.eqb q "" then None else Some q
          | None => None
          end) with (query_param a).
  change (match parent_href a with
          | Some h => if String.eqb h "" then None else Some (Py.rstrip "/" h)
          | None => None
          end) with (parent_param a).
  change (match applications a with
          | Some (app :: apps) =>
              Some (Py.join "," (map (fun x => Py.str_of_int (ApplicationType_value x))
                                   (app :: apps)))
          | _ => None
          end) with (applications_param a).
  search_params_cases a H; cbn [option_map];
    (split; [ dict_lookup | ]); (split; [ dict_lookup | ]); (split; [ dict_lookup | ]);
    (split; [ dict_lookup | ]); (split; [ dict_lookup | ]); (split; [ dict_lookup | ]);
    (split; [ dict_lookup | ]); (split; [ dict_lookup | ]); (split; [ dict_lookup | ]);
    (split; [ dict_lookup | dict_lookup ]).
Qed.

Lemma search_params_lookup_witness :
  Py.dict_get "limit" Demo.params = Some "50"
  /\ Py.dict_get "offset" Demo.params = None.
Proof.
  destruct (search_params_lookup Demo.client (Demo.call None) Demo.params)
    as [Hlimit [_ [_ [_ [Hoffset _]]]]]; [ reflexivity | ].
  split; [ exact Hlimit | exact Hoffset ].
Defined.

(** ** The offsets of the fan-out *)

Lemma str_of_int_inj (o1 o2 : Z) : Py.str_of_int o1 = Py.str_of_int o2 -> o1 = o2.
Proof.
  intros H. apply (f_equal Demo.parse_int) in H.
  rewrite !parse_int_str in H. now injection H.
Qed.

Lemma offset_request_offset self params o :
  Py.dict_get "offset" (req_params (offset_request self params o)) =
  Some (Py.str_of_int o).
Proof. apply dict_get_set_same. Qed.

Lemma NoDup_map_seq (f : nat -> Z) :
  (forall x y, f x = f y -> x = y) ->
  forall n start, NoDup (map f (seq start n)).
Proof.
  intros Hinj. induction n as [ | n IH]; intros start; simpl; constructor.
  - intros Hin. apply in_map_iff in Hin as [x [Hx Hin]].
    apply Hinj in Hx. subst x. apply in_seq in Hin. lia.
  - apply IH.
Qed.

Lemma range_NoDup start stop step offsets :
  Py.range start stop step = Some offsets -> NoDup offsets.
Proof.
  unfold Py.range. destruct (step =? 0) eqn:H0; [ discriminate | ].
  apply Z.eqb_neq in H0. intros [= <-].
  apply NoDup_map_seq. intros x y H. nia.
Qed.

Lemma issued_offsets_NoDup {Rec : Type} self a (j : search_json Rec) :
  NoDup (issued_offsets self a j).
Proof.
  unfold issued_offsets.
  destruct (limit_is _ _); [ constructor | ].
  destruct (limit_is _ _); [ constructor | ].
  unfold fanout_offsets.
  destruct (total_results_found j) as [t | ]; [ | constructor ].
  destruct (Py.range _ _ _) as [offsets | ] eqn:Hr; [ | constructor ].
  now apply range_NoDup in Hr.
Qed.

(** X12: the request records of one search are pairwise distinct: the first
    request carries no [offset] parameter, and the requests of the fan-out
    carry pairwise different values of [offset].  This is about the requests
    as sent, not about the pages they stand for: the request without
    [offset] and the request with [offset=0] are two records. *)
Theorem search_requests_are_distinct {Rec : Type}
    (transport : http_request -> transport_result Rec) (self : IglooClient)
    (a : SearchArgs) :
  NoDup (snd (search transport self a [])).
Proof.
  destruct (search_params self a) as [params | e] eqn:Hp.
  2:{ unfold search. rewrite Hp. constructor. }
  rewrite (search_run transport self a params [] Hp).
  destruct (request_outcome transport (first_request self params)) as [resp | e];
    [ | repeat constructor; easy ].
  destruct (resp_json resp) as [j | ]; [ | repeat constructor; easy ].
  rewrite search_pages_log. simpl. constructor.
  - intros Hin. apply in_map_iff in Hin as [o [Ho _]].
    apply (f_equal (fun r => Py.dict_get "offset" (req_params r))) in Ho.
    rewrite offset_request_offset in Ho. simpl in Ho.
    rewrite (search_params_no_offset self a params Hp) in Ho. discriminate.
  - pose proof (issued_offsets_NoDup self a j) as Hnd.
    induction Hnd as [ | o os Hnotin Hnd IH]; simpl; constructor; [ | exact IH ].
    intros Hin. apply in_map_iff in Hin as [o' [Ho' Hin]].
    apply (f_equal (fun r => Py.dict_get "offset" (req_params r))) in Ho'.
    rewrite !offset_request_offset in Ho'. injection Ho' as Ho'.
    apply str_of_int_inj in Ho'. subst o'. contradiction.
Qed.

Lemma range_bounds start stop step offsets :
  1 <= step -> Py.range start stop step = Some offsets ->
  offsets = map (fun k => start + Z.of_nat k * step)
              (seq 0 (Z.to_nat (ceil_div (stop - start) step)))
  /\ Forall (fun o => start <= o < stop) offsets.
Proof.
  intros Hs. unfold Py.range.
  destruct (step =? 0) eqn:H0; [ apply Z.eqb_eq in H0; lia | ].
  destruct (0 <? step) eqn:Hpos; [ | apply Z.ltb_ge in Hpos; lia ].
  intros [= <-]. split; [ reflexivity | ].
  apply Forall_forall. intros o Hin. apply in_map_iff in Hin as [k [<- Hk]].
  apply in_seq in Hk.
  pose proof (Z.mul_div_le (stop - start + step - 1) step ltac:(lia)) as Hdiv.
  assert (Hk' : Z.of_nat k + 1 <= (stop - start + step - 1) / step) by lia.
  assert (Hmul : (Z.of_nat k + 1) * step <= (stop - start + step - 1) / step * step)
    by (apply Z.mul_le_mono_nonneg_r; lia).
  nia.
Qed.

(** X13: with a page size of at least 1 and a total the server reported,
    the fan-out asks for the offsets [n0, n0 + P, n0 + 2P, ...], where [n0]
    is the size of the first page: [ceil((target - n0) / P)] of them, every
    one below [target = min(limit, total)].  The search never asks for
    records beyond its limit or beyond what the server reported. *)
Theorem fanout_stays_below_target {Rec : Type}
    (transport : http_request -> transport_result Rec) (self : IglooClient)
    (a : SearchArgs) (params : list (string * string)) (j : search_json Rec)
    (total : Z) (log : list http_request) :
  1 <= search_page_size self a ->
  json_numFound j = JValue total ->
  snd (search_pages transport self a params j log) =
    (log ++ map (offset_request self params) (issued_offsets self a j))%list
  /\ Forall (fun o => Py.len (first_results j) <= o
                      < results_to_fetch (limit a) total)
       (issued_offsets self a j)
  /\ (limit_is (limit a) (fun l => l <=? Py.len (first_results j)) = false ->
      issued_offsets self a j =
      map (fun k => Py.len (first_results j) + Z.of_nat k * search_page_size self a)
        (seq 0 (Z.to_nat (ceil_div (results_to_fetch (limit a) total
                                    - Py.len (first_results j))
                            (search_page_size self a))))).
Proof.
  intros HP Ht. split; [ apply search_pages_log | ].
  unfold issued_offsets, total_results_found. rewrite Ht.
  unfold fanout_offsets.
  destruct (Py.range (Py.len (first_results j)) (results_to_fetch (limit a) total)
              (search_page_size self a)) as [offsets | ] eqn:Hr.
  2:{ unfold Py.range in Hr.
      destruct (search_page_size self a =? 0) eqn:H0; [ apply Z.eqb_eq in H0; lia | ].
      discriminate. }
  destruct (range_bounds _ _ _ _ HP Hr) as [Hlist Hall].
  destruct (limit_is (limit a) (fun l => l =? 0)) eqn:Hz.
  - split; [ constructor | ]. intros Hle. exfalso.
    destruct (limit a) as [l | ]; [ | discriminate ].
    simpl in Hz, Hle. apply Z.eqb_eq in Hz. apply Z.leb_gt in Hle.
    unfold Py.len in Hle. lia.
  - destruct (limit_is (limit a) (fun l => l <=? Py.len (first_results j))).
    + split; [ constructor | discriminate ].
    + split; [ exact Hall | intros _; exact Hlist ].
Qed.

Lemma fanout_stays_below_target_witness :
  issued_offsets Demo.client (Demo.call (Some 120))
    (Demo.json_page (seq 0 1000) (first_request Demo.client Demo.params))
  = [50; 100].
Proof.
  destruct (fanout_stays_below_target (Demo.paged_server (seq 0 1000)) Demo.client
              (Demo.call (Some 120)) Demo.params
              (Demo.json_page (seq 0 1000) (first_request Demo.client Demo.params))
              1000 []) as [_ [_ Hlist]]; [ vm_compute; discriminate | reflexivity | ].
  rewrite Hlist by reflexivity. reflexivity.
Defined.

(** X22: when the first response holds no record (its [results] is empty,
    missing or [null]) while [numFound] is at least 1, with a page size of
    at least 1 and a limit that is absent or at least 1, the fan-out starts
    at offset 0: the second request of the search is the first request with
    [offset=0] added, so the first page is asked for once more. *)
Theorem empty_first_page_is_requested_again {Rec : Type}
    (transport : http_request -> transport_result Rec) (self : IglooClient)
    (a : SearchArgs) (params : list (string * string)) (log : list http_request)
    (resp : response Rec) (j : search_json Rec) (total : Z) :
  search_params self a = inl params ->
  transport (first_request self params) = Responded resp ->
  is_success resp = true ->
  resp_json resp = Some j ->
  first_results j = [] ->
  json_numFound j = JValue total ->
  1 <= total ->
  1 <= search_page_size self a ->
  (forall l, limit a = Some l -> 1 <= l) ->
  (exists more,
     snd (search transport self a log) =
     (log ++ first_request self params :: offset_request self params 0 :: more)%list)
  /\ req_method (offset_request self params 0) = req_method (first_request self params)
  /\ req_url (offset_request self params 0) = req_url (first_request self params)
  /\ req_params (offset_request self params 0) = Py.dict_set "offset" "0" params.
Proof.
  intros Hp Htr Hs Hj Hfirst Hn Htotal HP Hlim.
  split; [ | repeat split ].
  rewrite (search_run transport self a params log Hp).
  unfold request_outcome. rewrite Htr, Hs, Hj.
  rewrite search_pages_log, <- app_assoc. cbn [app].
  assert (Hoff : exists rest, issued_offsets self a j = 0 :: rest).
  { unfold issued_offsets, total_results_found. rewrite Hn, Hfirst.
    change (Py.len (@nil Rec)) with 0.
    assert (Htarget : 1 <= results_to_fetch (limit a) total).
    { unfold results_to_fetch. destruct (limit a) as [l | ]; [ | exact Htotal ].
      specialize (Hlim l eq_refl). lia. }
    assert (Hz : limit_is (limit a) (fun l => l =? 0) = false).
    { destruct (limit a) as [l | ]; [ | reflexivity ].
      specialize (Hlim l eq_refl). simpl. apply Z.eqb_neq. lia. }
    assert (Hle : limit_is (limit a) (fun l => l <=? 0) = false).
    { destruct (limit a) as [l | ]; [ | reflexivity ].
      specialize (Hlim l eq_refl). simpl. apply Z.leb_gt. lia. }
    rewrite Hz, Hle. unfold fanout_offsets.
    destruct (Py.range 0 (results_to_fetch (limit a) total) (search_page_size self a))
      as [offsets | ] eqn:Hr.
    2:{ unfold Py.range in Hr.
        destruct (search_page_size self a =? 0) eqn:H0; [ apply Z.eqb_eq in H0; lia | ].
        discriminate. }
    destruct (range_bounds _ _ _ _ HP Hr) as [-> _].
    assert (Hcount : 1 <= ceil_div (results_to_fetch (limit a) total - 0)
                            (search_page_size self a)).
    { unfold ceil_div. apply Z.div_le_lower_bound; lia. }
    destruct (Z.to_nat (ceil_div (results_to_fetch (limit a) total - 0)
                          (search_page_size self a))) as [ | c] eqn:Hc; [ lia | ].
    simpl. eexists. reflexivity. }
  destruct Hoff as [rest ->]. simpl. eexists. reflexivity.
Qed.

Lemma empty_first_page_is_requested_again_witness :
  exists more,
    snd (search (with_bodies (fun j => {| json_results := Absent;
                                          json_numFound := json_numFound j |})
                   (Demo.paged_server (seq 0 3)))
           Demo.client (Demo.call None) []) =
    first_request Demo.client Demo.params
      :: offset_request Demo.client Demo.params 0 :: more.
Proof.
  destruct (empty_first_page_is_requested_again
              (with_bodies (fun j => {| json_results := Absent;
                                        json_numFound := json_numFound j |})
                 (Demo.paged_server (seq 0 3)))
              Demo.client (Demo.call None) Demo.params []
              {| status_code := 200; resp_text := "";
                 resp_json := Some {| json_results := Absent; json_numFound := JValue 3 |} |}
              {| json_results := Absent; json_numFound := JValue 3 |} 3)
    as [[more Hlog] _];
    [ reflexivity | reflexivity | reflexivity | reflexivity | reflexivity | reflexivity
    | lia | vm_compute; discriminate | discriminate | ].
  exists more. exact Hlog.
Defined.

(** ** Merging the pages *)

Section Merging.

Context {Rec : Type}.
Variable transport : http_request -> transport_result Rec.
Variables (self : IglooClient) (params : list (string * string)).

(** Pages that all arrive with a body: the loop over the responses appends
    their records in the order of the offsets. *)
Lemma pages_extend (page : Z -> search_json Rec) (offsets : list Z) :
  (forall o, In o offsets ->
     exists r, request_outcome transport (offset_request self params o) = inl r /\
               resp_json r = Some (page o) /\ json_results (page o) <> JNull) ->
  forall results,
  exists resps,
    map (fun o => request_outcome transport (offset_request self params o)) offsets
      = map inl resps /\
    fst (extend_results results resps []) =
      inl (results ++ List.concat (map (fun o => first_results (page o)) offsets))%list.
Proof.
  induction offsets as [ | o os IH]; intros Hall results.
  - exists []. simpl. now rewrite app_nil_r.
  - destruct (Hall o (or_introl eq_refl)) as [r [Hout [Hj Hnn]]].
    assert (Hrest : forall o', In o' os ->
              exists r', request_outcome transport (offset_request self params o') = inl r' /\
                         resp_json r' = Some (page o') /\ json_results (page o') <> JNull)
      by (intros o' Hin; apply Hall; now right).
    destruct (IH Hrest (results ++ first_results (page o))%list) as [resps [Hmap Hext]].
    exists (r :: resps). simpl. split; [ now rewrite Hout, Hmap | ].
    unfold bind, response_json. rewrite Hj. simpl.
    unfold first_results in *.
    destruct (json_results (page o)) as [ | | l]; [ | contradiction | ].
    + rewrite app_nil_r in Hext. rewrite extend_results_run. simpl. now rewrite Hext.
    + rewrite extend_results_run. simpl. rewrite Hext. now rewrite <- app_assoc.
Qed.

(** A page whose [results] field is [null], among pages that all arrive with
    a body: the loop over the responses raises [TypeError]. *)
Lemma null_page_extend (resps : list (response Rec)) :
  Forall (fun r => resp_json r <> None) resps ->
  Exists (fun r => exists j, resp_json r = Some j /\ json_results j = JNull) resps ->
  forall results log, fst (extend_results results resps log) = inr TypeError.
Proof.
  intros Hall Hex. induction Hex as [r rs [j [Hj Hnull]] | r rs Hex IH];
    intros results log; simpl; unfold bind, response_json.
  - rewrite Hj. simpl. now rewrite Hnull.
  - inversion Hall as [ | r' rs' Hr Hrs]; subst.
    destruct (resp_json r) as [j | ]; [ | contradiction ]. simpl.
    destruct (json_results j); [ apply IH | reflexivity | apply IH ]; assumption.
Qed.

Lemma outcomes_all_ok (offsets : list Z) :
  (forall o, In o offsets ->
     exists r, request_outcome transport (offset_request self params o) = inl r) ->
  exists resps,
    map (fun o => request_outcome transport (offset_request self params o)) offsets
      = map inl resps /\
    (forall r, In r resps ->
       exists o, In o offsets /\
                 request_outcome transport (offset_request self params o) = inl r) /\
    (forall o, In o offsets ->
       exists r, In r resps /\
                 request_outcome transport (offset_request self params o) = inl r).
Proof.
  induction offsets as [ | o os IH]; intros Hall.
  - exists []. repeat split; intros x [].
  - destruct (Hall o (or_introl eq_refl)) as [r Hr].
    destruct IH as [resps [Hmap [Hback Hforth]]]; [ intros o' Hin; apply Hall; now right | ].
    exists (r :: resps). simpl. split; [ now rewrite Hr, Hmap | ]. split.
    + intros r' [<- | Hin]; [ eauto | ].
      destruct (Hback r' Hin) as [o' [Hin' Ho']]. eauto.
    + intros o' [<- | Hin]; [ eauto | ].
      destruct (Hforth o' Hin) as [r' [Hin' Ho']]. eauto.
Qed.

End Merging.

Lemma planned_offsets {Rec : Type} self a (j : search_json Rec) :
  search_page_size self a <> 0 -> json_numFound j <> JNull ->
  exists offsets,
    fanout_offsets (limit a) (total_results_found j) (Py.len (first_results j))
      (search_page_size self a) = inl offsets.
Proof.
  intros HP Hn. unfold fanout_offsets, total_results_found, Py.range.
  destruct (search_page_size self a =? 0) eqn:H0; [ apply Z.eqb_eq in H0; contradiction | ].
  destruct (json_numFound j); [ | contradiction | ]; eauto.
Qed.

(** X14: for a page size other than 0 and a [numFound] that is not [null],
    when the first page and every page of the fan-out arrive with a body
    whose [results] is not [null], the search returns the records of the
    first page followed by those of the other pages in offset order, cut to
    the limit if there is one, whatever each page holds; its requests are
    the first page, then the offsets of the fan-out in order. *)
Theorem search_merges_in_offset_order {Rec : Type}
    (transport : http_request -> transport_result Rec) (self : IglooClient)
    (a : SearchArgs) (params : list (string * string)) (log : list http_request)
    (resp : response Rec) (j : search_json Rec) (page : Z -> search_json Rec) :
  search_params self a = inl params ->
  request_outcome transport (first_request self params) = inl resp ->
  resp_json resp = Some j ->
  search_page_size self a <> 0 ->
  json_numFound j <> JNull ->
  (forall o, In o (issued_offsets self a j) ->
     exists r, request_outcome transport (offset_request self params o) = inl r /\
               resp_json r = Some (page o) /\ json_results (page o) <> JNull) ->
  search transport self a log =
  (inl (up_to_limit (limit a)
          (first_results j
           ++ List.concat (map (fun o => first_results (page o))
                             (issued_offsets self a j)))%list),
   (log ++ first_request self params
        :: map (offset_request self params) (issued_offsets self a j))%list).
Proof.
  intros Hp Hout Hj HP Hn Hpages.
  rewrite (search_run transport self a params log Hp), Hout, Hj.
  apply injective_projections; cbn [fst snd].
  2:{ rewrite search_pages_log. now rewrite <- app_assoc. }
  revert Hpages. unfold search_pages, issued_offsets. cbv zeta.
  destruct (limit_is (limit a) (fun l => l =? 0)) eqn:Hz.
  { intros _. destruct (limit a) as [l | ]; [ | discriminate ].
    simpl in Hz. apply Z.eqb_eq in Hz. subst l. reflexivity. }
  destruct (limit_is (limit a) (fun l => l <=? Py.len (first_results j))).
  { intros _. simpl. now rewrite app_nil_r. }
  destruct (planned_offsets self a j HP Hn) as [offsets ->].
  intros Hpages. unfold bind at 1. rewrite fanout_run.
  destruct (pages_extend transport self params page offsets Hpages (first_results j))
    as [resps [Hmap Hext]].
  rewrite Hmap, collect_inl, Hext. reflexivity.
Qed.

Lemma search_merges_in_offset_order_witness :
  fst (search (Demo.paged_server (seq 0 120)) Demo.client (Demo.call (Some 60)) []) =
  inl (seq 0 60).
Proof.
  rewrite (search_merges_in_offset_order (Demo.paged_server (seq 0 120)) Demo.client
             (Demo.call (Some 60)) Demo.params []
             {| status_code := 200; resp_text := "";
                resp_json := Some (Demo.json_page (seq 0 120)
                                     (first_request Demo.client Demo.params)) |}
             (Demo.json_page (seq 0 120) (first_request Demo.client Demo.params))
             (fun o => Demo.json_page (seq 0 120)
                         (offset_request Demo.client Demo.params o))).
  - reflexivity.
  - reflexivity.
  - reflexivity.
  - reflexivity.
  - vm_compute. discriminate.
  - discriminate.
  - intros o Ho. eexists. split; [ reflexivity | ]. split; [ reflexivity | discriminate ].
Defined.

(** X15: a [results] field that is [null] is read as an empty list in the
    first response, but in a response of the fan-out it makes the search
    raise [TypeError], even though every request succeeded. *)
Theorem null_results_in_a_page {Rec : Type}
    (transport : http_request -> transport_result Rec) (self : IglooClient)
    (a : SearchArgs) (params : list (string * string)) (log : list http_request)
    (resp : response Rec) (j : search_json Rec) :
  search_params self a = inl params ->
  request_outcome transport (first_request self params) = inl resp ->
  resp_json resp = Some j ->
  (json_results j = JNull -> first_results j = [])
  /\
  ((forall o, In o (issued_offsets self a j) ->
      exists r, request_outcome transport (offset_request self params o) = inl r /\
                resp_json r <> None) ->
   (exists o r jo,
      In o (issued_offsets self a j) /\
      request_outcome transport (offset_request self params o) = inl r /\
      resp_json r = Some jo /\ json_results jo = JNull) ->
   fst (search transport self a log) = inr TypeError).
Proof.
  intros Hp Hout Hj. split.
  { intros Hnull. unfold first_results. now rewrite Hnull. }
  intros Hall [o0 [r0 [j0 [Hin0 [Hout0 [Hj0 Hnull0]]]]]].
  rewrite (search_run transport self a params log Hp), Hout, Hj.
  revert Hall Hin0. unfold search_pages, issued_offsets. cbv zeta.
  destruct (limit_is (limit a) (fun l => l =? 0)); [ intros _ [] | ].
  destruct (limit_is (limit a) (fun l => l <=? Py.len (first_results j))); [ intros _ [] | ].
  destruct (fanout_offsets _ _ _ _) as [offsets | e]; [ | intros _ [] ].
  intros Hall Hin0. unfold bind at 1. rewrite fanout_run.
  destruct (outcomes_all_ok transport self params offsets)
    as [resps [Hmap [Hback Hforth]]].
  { intros o Hin. destruct (Hall o Hin) as [r [Hr _]]. eauto. }
  rewrite Hmap, collect_inl.
  rewrite (null_page_extend resps); [ reflexivity | | ].
  - apply Forall_forall. intros r Hr.
    destruct (Hback r Hr) as [o [Hin Ho]].
    destruct (Hall o Hin) as [r' [Hr' Hjson]]. congruence.
  - apply Exists_exists. exists r0. split; [ | eauto ].
    destruct (Hforth o0 Hin0) as [r [Hin Ho]]. congruence.
Qed.

Lemma null_results_in_a_page_witness :
  fst (search (null_page_server (seq 0 120)) Demo.client (Demo.call None) []) =
  inr TypeError.
Proof.
  destruct (null_results_in_a_page (null_page_server (seq 0 120)) Demo.client
              (Demo.call None) Demo.params []
              {| status_code := 200; resp_text := "";
                 resp_json := Some (Demo.json_page (seq 0 120)
                                      (first_request Demo.client Demo.params)) |}
              (Demo.json_page (seq 0 120) (first_request Demo.client Demo.params)))
    as [_ Hnull]; [ reflexivity | reflexivity | reflexivity | ].
  apply Hnull.
  - intros o Ho. vm_compute in Ho. destruct Ho as [<- | [<- | []]].
    + eexists. split; [ reflexivity | discriminate ].
    + eexists. split; [ reflexivity | discriminate ].
  - exists 50. eexists. eexists. split; [ vm_compute; now left | ].
    split; [ reflexivity | ]. split; reflexivity.
Defined.

(** X16: a [numFound] field that is [null] makes the search raise
    [TypeError] right after the first page, with no further request, unless
    the limit is 0 or already met by the first page. *)
Theorem null_total_is_type_error {Rec : Type}
    (transport : http_request -> transport_result Rec) (self : IglooClient)
    (a : SearchArgs) (params : list (string * string)) (log : list http_request)
    (resp : response Rec) (j : search_json Rec) :
  search_params self a = inl params ->
  request_outcome transport (first_request self params) = inl resp ->
  resp_json resp = Some j ->
  json_numFound j = JNull ->
  limit_is (limit a) (fun l => l <=? Py.len (first_results j)) = false ->
  search transport self a log =
  (inr TypeError, (log ++ [first_request self params])%list).
Proof.
  intros Hp Hout Hj Hn Hle.
  rewrite (search_run transport self a params log Hp), Hout, Hj.
  unfold search_pages. cbv zeta.
  assert (Hz : limit_is (limit a) (fun l => l =? 0) = false).
  { destruct (limit a) as [l | ]; [ | reflexivity ].
    simpl in *. apply Z.leb_gt in Hle. apply Z.eqb_neq. unfold Py.len in Hle. lia. }
  rewrite Hz, Hle. unfold total_results_found. rewrite Hn. reflexivity.
Qed.

Lemma null_total_is_type_error_witness :
  search (null_total_server (seq 0 50)) Demo.client (Demo.call None) [] =
  (inr TypeError, [first_request Demo.client Demo.params]).
Proof.
  apply (null_total_is_type_error (null_total_server (seq 0 50)) Demo.client
           (Demo.call None) Demo.params []
           {| status_code := 200; resp_text := "";
              resp_json := Some {| json_results := JValue (seq 0 50);
                                   json_numFound := JNull |} |}
           {| json_results := JValue (seq 0 50); json_numFound := JNull |});
    reflexivity.
Defined.

(** X17: with a page size of 0 (the client's own, since a
    [pagination_page_size] of 0 falls back to it) the search raises the
    [ValueError] of [range] right after the first page, with no further
    request, unless the limit is 0 or already met by the first page. *)
Theorem zero_page_size_is_value_error {Rec : Type}
    (transport : http_request -> transport_result Rec) (self : IglooClient)
    (a : SearchArgs) (params : list (string * string)) (log : list http_request)
    (resp : response Rec) (j : search_json Rec) :
  search_params self a = inl params ->
  request_outcome transport (first_request self params) = inl resp ->
  resp_json resp = Some j ->
  json_numFound j <> JNull ->
  page_size self = 0 ->
  pagination_page_size a = None \/ pagination_page_size a = Some 0 ->
  limit_is (limit a) (fun l => l <=? Py.len (first_results j)) = false ->
  search transport self a log =
  (inr (ValueError "range() arg 3 must not be zero"),
   (log ++ [first_request self params])%list).
Proof.
  intros Hp Hout Hj Hn Hps Hpp Hle.
  rewrite (search_run transport self a params log Hp), Hout, Hj.
  unfold search_pages. cbv zeta.
  assert (Hz : limit_is (limit a) (fun l => l =? 0) = false).
  { destruct (limit a) as [l | ]; [ | reflexivity ].
    simpl in *. apply Z.leb_gt in Hle. apply Z.eqb_neq. unfold Py.len in Hle. lia. }
  assert (Hsize : search_page_size self a = 0).
  { unfold search_page_size. destruct Hpp as [-> | ->]; [ exact Hps | ].
    simpl. exact Hps. }
  rewrite Hz, Hle, Hsize. unfold fanout_offsets, total_results_found, Py.range.
  destruct (json_numFound j); [ reflexivity | contradiction | reflexivity ].
Qed.

Lemma zero_page_size_is_value_error_witness :
  search (Demo.paged_server (seq 0 3)) (new_client "https://igloo.example.com" "10" 0)
    (Demo.call None) [] =
  (inr (ValueError "range() arg 3 must not be zero"),
   [first_request (new_client "https://igloo.example.com" "10" 0)
      (Py.dict_set "limit" "0" Demo.params)]).
Proof.
  apply (zero_page_size_is_value_error (Demo.paged_server (seq 0 3))
           (new_client "https://igloo.example.com" "10" 0) (Demo.call None)
           (Py.dict_set "limit" "0" Demo.params) []
           {| status_code := 200; resp_text := "";
              resp_json := Some {| json_results := JValue [];
                                   json_numFound := JValue 3 |} |}
           {| json_results := JValue []; json_numFound := JValue 3 |});
    try reflexivity.
  - discriminate.
  - left. reflexivity.
Defined.

(** ** The formatter *)

Lemma rsplit_head_length sep (s : string) :
  (String.length (Py.item0 (Py.rsplit_once sep s)) <= String.length s)%nat.
Proof.
  destruct (Py.contains sep s) eqn:Hc.
  - destruct (last_occurrence sep s Hc) as [head [tail [-> Ht]]].
    rewrite rsplit_once_last by assumption. simpl.
    rewrite length_append. lia.
  - rewrite rsplit_once_none by assumption. simpl. lia.
Qed.

(** X18: for a maximum length that is not negative, the truncated text is
    never longer than the maximum plus the three characters of the
    ellipsis. *)
Theorem truncate_text_length (text : string) (max_length : Z) :
  0 <= max_length ->
  Py.len_str (_truncate_text text max_length) <= max_length + 3.
Proof.
  intros Hpos. unfold _truncate_text.
  destruct (Py.len_str text <=? max_length) eqn:Hle.
  - apply Z.leb_le in Hle. lia.
  - unfold Py.str_slice_to. apply Z.leb_le in Hpos. rewrite Hpos.
    apply Z.leb_le in Hpos. unfold Py.len_str.
    rewrite length_append.
    pose proof (rsplit_head_length " " (Py.take (Z.to_nat max_length) text)) as Hhead.
    rewrite length_take in Hhead. simpl String.length. lia.
Qed.

Lemma truncate_text_length_witness :
  Py.len_str (_truncate_text "hello world foo" 13) <= 13 + 3.
Proof. apply (truncate_text_length "hello world foo" 13). lia. Defined.

(** X19: whatever the counts of the metadata, negative or inconsistent
    ones included, the percentage never raises a division by zero, and it is
    0 as soon as [chars_total] is not positive. *)
Theorem pct_never_divides_by_zero (metadata : TruncationMetadata) :
  pct metadata <> inr PyFloat.ZeroDivisionError
  /\ (chars_total metadata <= 0 -> pct metadata = inl 0).
Proof.
  unfold pct. destruct (0 <? chars_total metadata) eqn:Ht.
  - apply Z.ltb_lt in Ht. split; [ | lia ].
    unfold PyFloat.int_truediv.
    destruct (chars_total metadata =? 0) eqn:H0; [ apply Z.eqb_eq in H0; lia | ].
    destruct (SpecFloat.SFdiv _ _ _ _) as [s | s | | s m e]; simpl; discriminate.
  - split; [ discriminate | reflexivity ].
Qed.

Lemma pct_never_divides_by_zero_witness :
  pct (Demo.window 10 (-5)) = inl 0.
Proof. apply (pct_never_divides_by_zero (Demo.window 10 (-5))). simpl. lia. Defined.

(** The percentage of a window of a non-empty document. *)
Lemma pct_value (metadata : TruncationMetadata) :
  0 <= chars_returned metadata <= chars_total metadata ->
  0 < chars_total metadata ->
  exists p,
    pct metadata = inl p /\
    100 * chars_returned metadata / chars_total metadata <= p
      <= 100 * chars_returned metadata / chars_total metadata + 1 /\
    p <= 100 /\
    (chars_total metadata < 2 ^ 47 ->
       p = 100 * chars_returned metadata / chars_total metadata).
Proof.
  intros Hr Ht. unfold pct.
  destruct (0 <? chars_total metadata) eqn:Hpos; [ | apply Z.ltb_ge in Hpos; lia ].
  unfold PyFloat.int_truediv.
  destruct (chars_total metadata =? 0) eqn:H0; [ apply Z.eqb_eq in H0; lia | ].
  destruct (chars_total metadata) as [ | t | t ] eqn:Htotal; try lia.
  destruct (100 * chars_returned metadata) as [ | a | a ] eqn:Ha; try lia.
  - exists 0. split; [ reflexivity | ].
    rewrite Z.div_0_l by lia. repeat split; lia.
  - unfold PyFloat.of_int.
    destruct (truediv_round a t ltac:(lia)) as [s [val [f [Hs [Hf [Hshape [Hint Hval]]]]]]].
    rewrite Hf.
    destruct (scaled_quotient_floor (Zpos a) (Zpos t) s val
                ltac:(lia) ltac:(lia) ltac:(lia) Hs Hval) as [Hnear [Hmax Hexact]].
    exists (val / 2 ^ s). split.
    { destruct Hshape as [-> | [m [e ->]]]; exact Hint. }
    split; [ exact Hnear | ]. split; [ exact Hmax | exact Hexact ].
Qed.

(** X20: a window that returns the whole of a non-empty document shows
    100; and for documents below [2^47] characters 100 is shown for such
    windows only. *)
Theorem pct_full_iff_complete (metadata : TruncationMetadata) :
  0 <= chars_returned metadata <= chars_total metadata ->
  0 < chars_total metadata ->
  (chars_returned metadata = chars_total metadata -> pct metadata = inl 100)
  /\ (chars_total metadata < 2 ^ 47 ->
      pct metadata = inl 100 -> chars_returned metadata = chars_total metadata).
Proof.
  intros Hr Ht.
  destruct (pct_value metadata Hr Ht) as [p [Hp [Hnear [Hmax Hexact]]]].
  rewrite Hp. split.
  - intros Heq. f_equal.
    assert (100 * chars_returned metadata / chars_total metadata = 100).
    { rewrite Heq. apply Z.div_mul. lia. }
    lia.
  - intros Hsmall [= H100]. specialize (Hexact Hsmall).
    assert (Hdiv : 100 * chars_returned metadata / chars_total metadata = 100) by lia.
    pose proof (Z.mul_div_le (100 * chars_returned metadata) (chars_total metadata) Ht).
    rewrite Hdiv in H. lia.
Qed.

Lemma pct_full_iff_complete_witness :
  pct (Demo.window 125000 125000) = inl 100.
Proof.
  destruct (pct_full_iff_complete (Demo.window 125000 125000)) as [Hfull _];
    [ simpl; lia | simpl; lia | ].
  apply Hfull. reflexivity.
Defined.

(** X21: for documents below [2^47] characters the percentage never goes
    down when more of the document has been returned. *)
Theorem pct_is_monotone (m1 m2 : TruncationMetadata) (p1 p2 : Z) :
  chars_total m1 = chars_total m2 ->
  0 < chars_total m1 < 2 ^ 47 ->
  0 <= chars_returned m1 <= chars_returned m2 ->
  chars_returned m2 <= chars_total m2 ->
  pct m1 = inl p1 -> pct m2 = inl p2 ->
  p1 <= p2.
Proof.
  intros Ht Hsmall Hr1 Hr2 Hp1 Hp2.
  destruct (pct_value m1 ltac:(lia) ltac:(lia)) as [q1 [Hq1 [_ [_ He1]]]].
  destruct (pct_value m2 ltac:(lia) ltac:(lia)) as [q2 [Hq2 [_ [_ He2]]]].
  rewrite Hq1 in Hp1. rewrite Hq2 in Hp2.
  injection Hp1 as <-. injection Hp2 as <-.
  rewrite He1, He2 by lia. rewrite <- Ht.
  apply Z.div_le_mono; lia.
Qed.

Lemma pct_is_monotone_witness :
  pct (Demo.window 49800 125000) = inl 39
  /\ pct (Demo.window 99600 125000) = inl 79
  /\ 39 <= 79.
Proof.
  split; [ reflexivity | ]. split; [ reflexivity | ].
  apply (pct_is_monotone (Demo.window 49800 125000) (Demo.window 99600 125000) 39 79);
    try reflexivity; simpl; lia.
Defined.
